(** * scanner-controller: serial probing and tab-completion utilities

    A shallow embedding of [utilities/scanner_utils_uniden.py] and of the
    [completer] closure of [utilities/readlineSetup.py], with the properties
    of the protocol layer stated over it.

    Conventions.
    - A Python [str] is a list of Unicode code points ([N]); [bytes] is a
      list of [Byte.byte].
    - pyserial, [time], [logging] and [readline] are the environment.  Every
      call into them is recorded, in order, in the event log of the [World];
      what they answer comes from an [Env] of oracles.
    - A Python exception is the [Raise] outcome of a computation.
    - Seconds (timeouts, clock readings) are rationals. *)

From Stdlib Require Import List Bool Arith NArith ZArith QArith Lia.
From Stdlib Require Import Strings.String Strings.Ascii Strings.Byte.
Import ListNotations.
Close Scope Q_scope.

Set Implicit Arguments.

(* ================================================================= *)
(** ** Python strings *)

Module PyStr.

Definition str := list N.
Definition bytes := list byte.

(** A [str] literal written with ASCII characters. *)
Fixpoint lit (s : string) : str :=
  match s with
  | EmptyString => []
  | String c s' => N_of_ascii c :: lit s'
  end.

(** A [bytes] literal written with ASCII characters. *)
Definition blit (s : string) : bytes := list_byte_of_string s.

Definition between (lo hi x : N) : bool := (lo <=? x)%N && (x <=? hi)%N.

(** [str.isspace] on one character: the code points CPython's
    [_PyUnicode_IsWhitespace] accepts. *)
Definition isspace (c : N) : bool :=
  between 0x09 0x0D c || between 0x1C 0x20 c
  || (c =? 0x85)%N || (c =? 0xA0)%N || (c =? 0x1680)%N
  || between 0x2000 0x200A c || (c =? 0x2028)%N || (c =? 0x2029)%N
  || (c =? 0x202F)%N || (c =? 0x205F)%N || (c =? 0x3000)%N.

Fixpoint lstrip (s : str) : str :=
  match s with
  | [] => []
  | c :: s' => if isspace c then lstrip s' else s
  end.

Definition rstrip (s : str) : str := rev (lstrip (rev s)).

(** [s.strip()] *)
Definition strip (s : str) : str := rstrip (lstrip s).

Fixpoint str_eqb (a b : str) : bool :=
  match a, b with
  | [], [] => true
  | x :: a', y :: b' => (x =? y)%N && str_eqb a' b'
  | _, _ => false
  end.

(** [s.startswith(p)] *)
Fixpoint startswith (s p : str) : bool :=
  match p, s with
  | [], _ => true
  | y :: p', x :: s' => (x =? y)%N && startswith s' p'
  | _ :: _, [] => false
  end.

(** [s.endswith(p)] *)
Definition endswith (s p : str) : bool := startswith (rev s) (rev p).

(** [s.split()] with no separator: the maximal runs of non-whitespace
    characters, in order.  [cur] is the run being read, reversed. *)
Fixpoint split_from (cur : str) (s : str) : list str :=
  match s with
  | [] => match cur with [] => [] | _ => [rev cur] end
  | c :: s' =>
      if isspace c
      then match cur with
           | [] => split_from [] s'
           | _ => rev cur :: split_from [] s'
           end
      else split_from (c :: cur) s'
  end.

Definition split (s : str) : list str := split_from [] s.

(** [str.lower] restricted to ASCII letters; it agrees with Python on
    every string whose cased characters are ASCII. *)
Definition ascii_lower (s : str) : str :=
  map (fun c => if between 0x41 0x5A c then (c + 32)%N else c) s.

End PyStr.
Export PyStr.

(* ================================================================= *)
(** ** UTF-8 *)

Module Utf8.

Definition cont (x : N) : bool := between 0x80 0xBF x.

(** [bs.decode("utf-8")] with the default strict error handler: [None]
    stands for [UnicodeDecodeError].  Overlong forms, surrogates and code
    points above U+10FFFF are rejected, as CPython does. *)
Fixpoint decode (bs : bytes) : option str :=
  match bs with
  | [] => Some []
  | b0 :: r0 =>
      let x0 := Byte.to_N b0 in
      if (x0 <? 0x80)%N then option_map (cons x0) (decode r0)
      else if between 0xC2 0xDF x0 then
        match r0 with
        | b1 :: r1 =>
            let x1 := Byte.to_N b1 in
            if cont x1
            then option_map (cons ((x0 - 0xC0) * 0x40 + (x1 - 0x80))%N)
                            (decode r1)
            else None
        | [] => None
        end
      else if between 0xE0 0xEF x0 then
        match r0 with
        | b1 :: b2 :: r2 =>
            let x1 := Byte.to_N b1 in
            let x2 := Byte.to_N b2 in
            let lo := if (x0 =? 0xE0)%N then 0xA0%N else 0x80%N in
            let hi := if (x0 =? 0xED)%N then 0x9F%N else 0xBF%N in
            if between lo hi x1 && cont x2
            then option_map
                   (cons ((x0 - 0xE0) * 0x1000 + (x1 - 0x80) * 0x40
                          + (x2 - 0x80))%N)
                   (decode r2)
            else None
        | _ => None
        end
      else if between 0xF0 0xF4 x0 then
        match r0 with
        | b1 :: b2 :: b3 :: r3 =>
            let x1 := Byte.to_N b1 in
            let x2 := Byte.to_N b2 in
            let x3 := Byte.to_N b3 in
            let lo := if (x0 =? 0xF0)%N then 0x90%N else 0x80%N in
            let hi := if (x0 =? 0xF4)%N then 0x8F%N else 0xBF%N in
            if between lo hi x1 && cont x2 && cont x3
            then option_map
                   (cons ((x0 - 0xF0) * 0x40000 + (x1 - 0x80) * 0x1000
                          + (x2 - 0x80) * 0x40 + (x3 - 0x80))%N)
                   (decode r3)
            else None
        | _ => None
        end
      else None
  end.

Definition byte_of (n : N) : byte :=
  match Byte.of_N n with Some b => b | None => x00 end.

(** The UTF-8 bytes of one code point; [None] for a surrogate or a value
    that is no code point. *)
Definition encode_char (c : N) : option bytes :=
  if (c <? 0x80)%N then Some [byte_of c]
  else if (c <? 0x800)%N then
    Some [byte_of (0xC0 + c / 0x40); byte_of (0x80 + c mod 0x40)]
  else if (c <? 0x10000)%N then
    if between 0xD800 0xDFFF c then None
    else Some [byte_of (0xE0 + c / 0x1000);
               byte_of (0x80 + (c / 0x40) mod 0x40);
               byte_of (0x80 + c mod 0x40)]
  else if (c <=? 0x10FFFF)%N then
    Some [byte_of (0xF0 + c / 0x40000);
          byte_of (0x80 + (c / 0x1000) mod 0x40);
          byte_of (0x80 + (c / 0x40) mod 0x40);
          byte_of (0x80 + c mod 0x40)]
  else None.

(** [s.encode("utf-8")]: [None] stands for [UnicodeEncodeError]. *)
Fixpoint encode (s : str) : option bytes :=
  match s with
  | [] => Some []
  | c :: s' =>
      match encode_char c, encode s' with
      | Some b, Some bs => Some (b ++ bs)
      | _, _ => None
      end
  end.

End Utf8.

(* ================================================================= *)
(** ** The model-response pattern *)

Module Re.

(** The character class [[A-Za-z0-9,]]. *)
Definition mdl_char (c : N) : bool :=
  between 0x41 0x5A c || between 0x61 0x7A c || between 0x30 0x39 c
  || (c =? 0x2C)%N.

Fixpoint span (p : N -> bool) (s : str) : str * str :=
  match s with
  | [] => ([], [])
  | c :: s' =>
      if p c then let (run, rest) := span p s' in (c :: run, rest)
      else ([], s)
  end.

(** [mdl_pattern.match(s)] for
    [mdl_pattern = re.compile(r"^MDL,([A-Za-z0-9,]+)$")]: [Some g] is a
    match whose group 1 is [g], [None] is no match.  The greedy class run
    cannot be shortened (the next character would still be in the class),
    and Python's [$] holds at the end of the string and just before a
    final line feed. *)
Definition mdl_pattern_match (s : str) : option str :=
  match s with
  | 0x4D :: 0x44 :: 0x4C :: 0x2C :: payload =>
      let (run, rest) := span mdl_char payload in
      match run with
      | [] => None
      | _ :: _ =>
          match rest with
          | [] => Some run
          | [0x0A] => Some run
          | _ => None
          end
      end
  | _ => None
  end%N.

End Re.


(* ================================================================= *)
(** ** The environment: exceptions, events, simulated ports *)

Module Py.

(** Exception classes the serial layer and the codecs raise.  All of them
    derive from [Exception]. *)
Inductive ExcClass :=
| SerialException | SerialTimeoutException | PortNotOpenError
| OSError | PermissionError | FileNotFoundError
| ValueError | UnicodeDecodeError | UnicodeEncodeError.

Record PyExc := mkExc { exc_class : ExcClass; exc_msg : str }.

Inductive Outcome (A : Type) :=
| Ok (a : A)
| Raise (e : PyExc).
Arguments Raise {A} e.

Inductive LogLevel := INFO | WARNING | ERROR.

Inductive LogArg :=
| ArgStr (s : str)
| ArgExc (e : PyExc).

(** One call into the environment.  A log record keeps the f-string as a
    template with its interpolated values beside it. *)
Inductive Event :=
| EvComports
| EvOpen (device : str) (baudrate : Z) (timeout : Q) (failure : option PyExc)
| EvClose (device : str)
| EvWrite (device : str) (data : bytes)
| EvReadUntil (device : str) (expected : bytes) (timeout : Q)
| EvResetInputBuffer (device : str)
| EvResetOutputBuffer (device : str)
| EvInWaiting (device : str)
| EvTime
| EvSleep (secs : Q)
| EvLog (level : LogLevel) (template : string) (args : list LogArg).

(** What a serial endpoint does when it is driven: the entry
    [list_ports.comports()] reports for it, and the answer to each call
    made on a connection to it.  The [nat] is the number of earlier calls
    of the same kind on that connection. *)
Record PortSim := mkPortSim {
  device : str;
  description : str;
  open_failure : Z -> Q -> option PyExc;
  write_failure : nat -> bytes -> option PyExc;
  read_until_result : nat -> bytes -> Q -> Outcome bytes;
  in_waiting_result : nat -> Outcome Z
}.

(** A [serial.Serial] object. *)
Record Serial := mkSerial {
  port : PortSim;
  baudrate : Z;
  timeout : Q;
  writes : nat;
  reads : nat;
  polls : nat
}.

Definition set_timeout (t : Q) (s : Serial) : Serial :=
  mkSerial (port s) (baudrate s) t (writes s) (reads s) (polls s).
Definition count_write (s : Serial) : Serial :=
  mkSerial (port s) (baudrate s) (timeout s) (S (writes s)) (reads s) (polls s).
Definition count_read (s : Serial) : Serial :=
  mkSerial (port s) (baudrate s) (timeout s) (writes s) (S (reads s)) (polls s).
Definition count_poll (s : Serial) : Serial :=
  mkSerial (port s) (baudrate s) (timeout s) (writes s) (reads s) (S (polls s)).

(** The oracles: what the [k]-th enumeration of the ports returns, and
    how many nanoseconds pass between the previous reading of the clock and
    the [k]-th one.  The clock does not run backwards. *)
Record Env := mkEnv {
  comports_result : nat -> list PortSim;
  elapsed_ns : nat -> N
}.

Record World := mkWorld {
  events : list Event;
  enumerations : nat;
  clock_reads : nat;
  clock_ns : N
}.

Definition world0 : World := mkWorld [] 0 0 0.

Definition emit (e : Event) (w : World) : World :=
  mkWorld (events w ++ [e]) (enumerations w) (clock_reads w) (clock_ns w).

(** Nanoseconds as the seconds [time.time()] returns. *)
Definition seconds (ns : N) : Q := Z.of_N ns # 1000000000.

(** *** Computations *)

(** A computation over a state [S]; the state survives an exception. *)
Definition M (S A : Type) := S -> Outcome A * S.

Definition ret {S A} (a : A) : M S A := fun s => (Ok a, s).
Definition raise {S A} (e : PyExc) : M S A := fun s => (Raise e, s).
Definition bind {S A B} (c : M S A) (k : A -> M S B) : M S B :=
  fun s =>
    match c s with
    | (Ok a, s') => k a s'
    | (Raise e, s') => (Raise e, s')
    end.

(** [try: c  except Exception as e: h e].  Every exception class of the
    model derives from [Exception], so the handler takes them all. *)
Definition try_except {S A} (c : M S A) (h : PyExc -> M S A) : M S A :=
  fun s =>
    match c s with
    | (Ok a, s') => (Ok a, s')
    | (Raise e, s') => h e s'
    end.

(** Code that runs while a connection is held works on the connection
    object and the world together. *)
Definition Conn := (Serial * World)%type.

Definition in_world {A} (c : M World A) : M Conn A :=
  fun '(ser, w) => let (r, w') := c w in (r, (ser, w')).

End Py.
Export Py.

Declare Scope py_scope.
Delimit Scope py_scope with py.
Notation "x <- c ;; k" := (bind c (fun x => k))
  (at level 61, c at next level, right associativity) : py_scope.
Notation "c ;; k" := (bind c (fun _ => k))
  (at level 61, right associativity) : py_scope.
Open Scope py_scope.

(* ================================================================= *)
(** ** pyserial, [time], [logging] *)

Module Lib.
Section WithEnv.

Variable env : Env.

(** [list_ports.comports()] *)
Definition comports : M World (list PortSim) :=
  fun w =>
    (Ok (comports_result env (enumerations w)),
     mkWorld (events w ++ [EvComports]) (S (enumerations w)) (clock_reads w)
             (clock_ns w)).

(** [time.time()] *)
Definition time_time : M World Q :=
  fun w =>
    let now := (clock_ns w + elapsed_ns env (clock_reads w))%N in
    (Ok (seconds now),
     mkWorld (events w ++ [EvTime]) (enumerations w) (S (clock_reads w)) now).

(** [time.sleep(secs)] *)
Definition time_sleep (secs : Q) : M World unit :=
  fun w => (Ok tt, emit (EvSleep secs) w).

(** [logger.info], [logger.warning], [logger.error] *)
Definition logger (level : LogLevel) (template : string)
           (args : list LogArg) : M World unit :=
  fun w => (Ok tt, emit (EvLog level template args) w).

(** [with serial.Serial(dev, baudrate, timeout=timeout) as ser: body]:
    the constructor opens the port or raises; leaving the block, by its
    end, by [continue] or by an exception, closes the connection. *)
Definition with_Serial {A} (p : PortSim) (baud : Z) (tmo : Q)
           (body : M Conn A) : M World A :=
  fun w =>
    match open_failure p baud tmo with
    | Some e => (Raise e, emit (EvOpen (device p) baud tmo (Some e)) w)
    | None =>
        let ser := mkSerial p baud tmo 0 0 0 in
        let '(r, (_, w')) :=
          body (ser, emit (EvOpen (device p) baud tmo None) w) in
        (r, emit (EvClose (device p)) w')
    end.

(** [ser.timeout = t] *)
Definition assign_timeout (t : Q) : M Conn unit :=
  fun '(ser, w) => (Ok tt, (set_timeout t ser, w)).

(** [ser.write(data)] *)
Definition ser_write (data : bytes) : M Conn unit :=
  fun '(ser, w) =>
    let w' := emit (EvWrite (device (port ser)) data) w in
    match write_failure (port ser) (writes ser) data with
    | Some e => (Raise e, (count_write ser, w'))
    | None => (Ok tt, (count_write ser, w'))
    end.

(** [ser.read_until(expected)]: the read is bounded by the timeout the
    connection carries at the time of the call. *)
Definition ser_read_until (expected : bytes) : M Conn bytes :=
  fun '(ser, w) =>
    (read_until_result (port ser) (reads ser) expected (timeout ser),
     (count_read ser,
      emit (EvReadUntil (device (port ser)) expected (timeout ser)) w)).

(** [ser.in_waiting] *)
Definition ser_in_waiting : M Conn Z :=
  fun '(ser, w) =>
    (in_waiting_result (port ser) (polls ser),
     (count_poll ser, emit (EvInWaiting (device (port ser))) w)).

(** [ser.reset_input_buffer()], [ser.reset_output_buffer()] *)
Definition ser_reset_input_buffer : M Conn unit :=
  fun '(ser, w) => (Ok tt, (ser, emit (EvResetInputBuffer (device (port ser))) w)).
Definition ser_reset_output_buffer : M Conn unit :=
  fun '(ser, w) => (Ok tt, (ser, emit (EvResetOutputBuffer (device (port ser))) w)).

End WithEnv.
End Lib.

(* ================================================================= *)
(** ** utilities/scanner_utils_uniden.py *)

Module ScannerUtilsUniden.
Import Lib.

(** A codec error; of its message only the codec name is kept. *)
Definition decode_error : PyExc := mkExc UnicodeDecodeError (lit "utf-8").
Definition encode_error : PyExc := mkExc UnicodeEncodeError (lit "utf-8").

Definition CR : byte := x0d.

(** An entry of [detected]: [(port.device, model, dialect)]. *)
Definition Detected := (str * str * str)%type.

(** [def clear_serial_buffer(ser)] *)
Definition clear_serial_buffer : M Conn unit :=
  ser_reset_input_buffer ;;
  ser_reset_output_buffer.

(** [def read_response(ser, timeout=1.0)] *)
Definition read_response_timeout_default : Q := 1.

Definition read_response (timeout : Q) : M Conn str :=
  assign_timeout timeout ;;
  raw <- ser_read_until [CR] ;;
  match Utf8.decode raw with
  | None => raise decode_error
  | Some text => ret (strip text)
  end.

(** [def send_command(ser, cmd)] *)
Definition send_command (cmd : str) : M Conn str :=
  match Utf8.encode (cmd ++ [0x0D%N]) with
  | None => raise encode_error
  | Some data =>
      ser_write data ;;
      read_response read_response_timeout_default
  end.

Definition truthy (l : list Detected) : bool :=
  match l with [] => false | _ :: _ => true end.

Section WithEnv.

Variable env : Env.

(** The body of the [with] block of [find_scanner_port].  The [continue]
    after a model match leaves the block, so the rest of the body is the
    other branch. *)
Definition probe (p : PortSim) (detected : list Detected)
  : M Conn (list Detected) :=
  in_world (logger INFO "Trying port: {}" [ArgStr (device p)]) ;;
  in_world (logger INFO "Port description: {}" [ArgStr (description p)]) ;;
  ser_write (blit "MDL" ++ [CR]) ;;
  response <- read_response read_response_timeout_default ;;
  in_world (logger INFO "Response from {}: {}"
                   [ArgStr (device p); ArgStr response]) ;;
  match Re.mdl_pattern_match response with
  | Some model_code =>
      ret (detected ++ [(device p, model_code, lit "uniden")])
  | None =>
      ser_write (blit "WI" ++ [CR]) ;;
      response <- read_response read_response_timeout_default ;;
      in_world (logger INFO "Response from {}: {}"
                       [ArgStr (device p); ArgStr response]) ;;
      if str_eqb (strip response) (lit "AR-DV1")
      then ret (detected ++ [(device p, lit "AR-DV1", lit "aordv1")])
      else ret detected
  end.

(** One iteration of [for port in ports]: the [try] statement. *)
Definition check_port (baudrate : Z) (timeout : Q) (p : PortSim)
           (detected : list Detected) : M World (list Detected) :=
  try_except
    (with_Serial p baudrate timeout (probe p detected))
    (fun e =>
       logger WARNING "Error checking port {}: {}"
              [ArgStr (device p); ArgExc e] ;;
       ret detected).

(** [for port in ports: ...] *)
Fixpoint for_ports (baudrate : Z) (timeout : Q) (ports : list PortSim)
         (detected : list Detected) : M World (list Detected) :=
  match ports with
  | [] => ret detected
  | p :: rest =>
      detected' <- check_port baudrate timeout p detected ;;
      for_ports baudrate timeout rest detected'
  end.

(** [while retries < max_retries: ...] and the two statements after it.
    [None] is a run the fuel cut short. *)
Fixpoint while_retries (fuel : nat) (baudrate : Z) (timeout : Q)
         (max_retries retries : Z) (detected : list Detected)
  : M World (option (list Detected)) :=
  if (retries <? max_retries)%Z then
    match fuel with
    | O => ret None
    | S fuel' =>
        ports <- comports env ;;
        detected' <- for_ports baudrate timeout ports detected ;;
        if truthy detected' then ret (Some detected')
        else
          logger INFO "No scanners found. Retrying in 3 seconds..." [] ;;
          time_sleep 3 ;;
          while_retries fuel' baudrate timeout max_retries (retries + 1)
                        detected'
    end
  else
    logger ERROR "No scanners found after maximum retries." [] ;;
    ret (Some detected).

(** [def find_scanner_port(baudrate=115200, timeout=0.5, max_retries=2)] *)
Definition find_scanner_port_fuel (fuel : nat) (baudrate : Z) (timeout : Q)
           (max_retries : Z) : M World (option (list Detected)) :=
  while_retries fuel baudrate timeout max_retries 0 [].

Definition find_scanner_port (baudrate : Z) (timeout : Q) (max_retries : Z)
  : M World (option (list Detected)) :=
  find_scanner_port_fuel (Z.to_nat max_retries) baudrate timeout max_retries.

Definition Qltb (x y : Q) : bool := negb (Qle_bool y x).

(** The [while time.time() - start < max_wait] loop of [wait_for_data]. *)
Fixpoint wait_loop (fuel : nat) (start max_wait : Q)
  : M Conn (option bool) :=
  match fuel with
  | O => ret None
  | S fuel' =>
      now <- in_world (time_time env) ;;
      if Qltb (now - start) max_wait then
        n <- ser_in_waiting ;;
        if (n =? 0)%Z then
          in_world (time_sleep (1 # 100)) ;;
          wait_loop fuel' start max_wait
        else ret (Some true)
      else ret (Some false)
  end.

(** [def wait_for_data(ser, max_wait=0.3)] *)
Definition wait_for_data (fuel : nat) (max_wait : Q) : M Conn (option bool) :=
  start <- in_world (time_time env) ;;
  wait_loop fuel start max_wait.

End WithEnv.
End ScannerUtilsUniden.

(* ================================================================= *)
(** ** utilities/readlineSetup.py: the completer *)

Module ReadlineSetup.

(** A command handler, as far as completion looks at it: its [__doc__]. *)
Record Handler := mkHandler { doc : option str }.

(** The [COMMANDS] dict, in insertion order. *)
Definition Commands := list (str * Handler).

Fixpoint lookup (c : Commands) (k : str) : option Handler :=
  match c with
  | [] => None
  | (k', h) :: c' => if str_eqb k' k then Some h else lookup c' k
  end.

Definition keys (c : Commands) : list str := map fst c.

(** [l[i]] with Python's indexing; [None] is [IndexError]. *)
Definition index {A} (l : list A) (i : Z) : option A :=
  let n := Z.of_nat (List.length l) in
  if (0 <=? i)%Z then nth_error l (Z.to_nat i)
  else if (- n <=? i)%Z then nth_error l (Z.to_nat (n + i))
  else None.

Section Completer.

(** [str.lower]. *)
Variable lower : str -> str.
Variable COMMANDS : Commands.

(** The list [matches] that [completer(text, state)] builds when
    [readline.get_line_buffer()] returns [line_buffer]. *)
Definition completer_matches (line_buffer text : str) : list str :=
  let buffer := strip line_buffer in
  let parts := split buffer in
  if (List.length parts =? 0)%nat
     || ((List.length parts =? 1)%nat && negb (endswith buffer (lit " ")))
  then filter (fun cmd => startswith cmd text) (keys COMMANDS)
  else if (1 <=? List.length parts)%nat then
    let command := lower (hd [] parts) in
    match lookup COMMANDS command with
    | Some h =>
        let subcommands :=
          match doc h with
          | Some ((_ :: _) as d) => split d
          | _ => []
          end in
        filter (fun sub => startswith sub text) subcommands
    | None => []
    end
  else [].

Definition completer (line_buffer text : str) (state : Z) : option str :=
  index (completer_matches line_buffer text) state.

End Completer.
End ReadlineSetup.

(* ================================================================= *)
(** ** What the properties speak about *)

Module Props.
Import Lib ScannerUtilsUniden.

(** A full pass starts with one enumeration of the ports. *)
Fixpoint passes (evs : list Event) : nat :=
  match evs with
  | [] => 0
  | EvComports :: evs' => S (passes evs')
  | _ :: evs' => passes evs'
  end.

(** The devices the log shows an attempt to open, in order. *)
Fixpoint open_attempts (evs : list Event) : list str :=
  match evs with
  | [] => []
  | EvOpen d _ _ _ :: evs' => d :: open_attempts evs'
  | _ :: evs' => open_attempts evs'
  end.

(** The data of the writes the log shows, in order. *)
Fixpoint written (evs : list Event) : list bytes :=
  match evs with
  | [] => []
  | EvWrite _ data :: evs' => data :: written evs'
  | _ :: evs' => written evs'
  end.

(** The timeout each line read of the log ran with, in order. *)
Fixpoint read_timeouts (evs : list Event) : list Q :=
  match evs with
  | [] => []
  | EvReadUntil _ _ t :: evs' => t :: read_timeouts evs'
  | _ :: evs' => read_timeouts evs'
  end.

(** How often the log shows [in_waiting] being looked at. *)
Fixpoint inspections (evs : list Event) : nat :=
  match evs with
  | [] => 0
  | EvInWaiting _ :: evs' => S (inspections evs')
  | _ :: evs' => inspections evs'
  end.

(** An endpoint nothing answers on: it opens, takes every write, and
    every read times out with no bytes. *)
Definition non_responsive (p : PortSim) : Prop :=
  (forall b t, open_failure p b t = None)
  /\ (forall k d, write_failure p k d = None)
  /\ (forall k e t, read_until_result p k e t = Ok []).

(** A response of the form [MDL,<payload>] with a non-empty payload over
    letters, digits and commas: the whole string matches
    [^MDL,[A-Za-z0-9,]+$]. *)
Definition matches_mdl_grammar (s : str) : Prop :=
  exists payload,
    s = lit "MDL," ++ payload
    /\ payload <> []
    /\ Forall (fun c => Re.mdl_char c = true) payload.

(** The substring after the first comma (empty when there is none). *)
Fixpoint after_first_comma (s : str) : str :=
  match s with
  | [] => []
  | c :: s' => if (c =? 0x2C)%N then s' else after_first_comma s'
  end.

(** Events that neither open nor close a connection nor start a pass. *)
Definition neutral (e : Event) : Prop :=
  match e with
  | EvOpen _ _ _ _ | EvClose _ | EvComports => False
  | _ => True
  end.

(** Reading a log with [cur] the connection currently held.  [None] is a
    violation: opening the next endpoint or starting a pass while a
    connection is still held, or a close that matches no open one. *)
Fixpoint held (cur : option str) (evs : list Event) : option (option str) :=
  match evs with
  | [] => Some cur
  | e :: evs' =>
      match e, cur with
      | EvOpen d _ _ None, None => held (Some d) evs'
      | EvOpen _ _ _ (Some _), None => held None evs'
      | EvOpen _ _ _ _, Some _ => None
      | EvClose d, Some d' => if str_eqb d d' then held None evs' else None
      | EvClose _, None => None
      | EvComports, Some _ => None
      | _, _ => held cur evs'
      end
  end.

(** What a line read gives its caller once the bytes are in. *)
Definition decoded (r : Outcome bytes) : Outcome str :=
  match r with
  | Ok raw =>
      match Utf8.decode raw with
      | Some text => Ok (strip text)
      | None => Raise decode_error
      end
  | Raise e => Raise e
  end.

(** A character that is no whitespace. *)
Definition nonspace (c : N) : Prop := isspace c = false.

(** The events of a computation on a connection and of one on the world. *)
Definition cevents (c : Conn) : list Event := events (snd c).

(** Every run of [c] appends events that all satisfy [P]. *)
Definition emits {S A} (ev : S -> list Event) (P : Event -> Prop)
           (c : M S A) : Prop :=
  forall s, exists evs, ev (snd (c s)) = ev s ++ evs /\ Forall P evs.

End Props.
Import Props Lib ScannerUtilsUniden ReadlineSetup.

(* ================================================================= *)
(** ** Concrete endpoints and registries *)

Module Examples.
Import Lib ScannerUtilsUniden ReadlineSetup.

Definition serial_error (msg : string) : PyExc :=
  mkExc SerialException (lit msg).

(** A port that opens and then never answers. *)
Definition silent (name : string) : PortSim :=
  mkPortSim (lit name) (lit "n/a")
            (fun _ _ => None) (fun _ _ => None)
            (fun _ _ _ => Ok []) (fun _ => Ok 0%Z).

(** A Uniden scanner: every line read returns [MDL,BCD436HP\r]. *)
Definition uniden_A : PortSim :=
  mkPortSim (lit "A") (lit "BCD436HP")
            (fun _ _ => None) (fun _ _ => None)
            (fun _ _ _ => Ok (blit "MDL,BCD436HP" ++ [CR]))
            (fun _ => Ok 0%Z).

(** An AOR receiver: garbage text on the first read, then the identity
    line with blanks around it. *)
Definition aor_B : PortSim :=
  mkPortSim (lit "B") (lit "AR-DV1")
            (fun _ _ => None) (fun _ _ => None)
            (fun k _ _ =>
               match k with
               | O => Ok (blit "?" ++ [CR])
               | _ => Ok (blit "  AR-DV1 " ++ [CR])
               end)
            (fun _ => Ok 0%Z).

(** A port some other program holds. *)
Definition busy : PortSim :=
  mkPortSim (lit "COM7") (lit "n/a")
            (fun _ _ => Some (serial_error "could not open port"))
            (fun _ _ => None) (fun _ _ _ => Ok []) (fun _ => Ok 0%Z).

(** A port whose device was pulled: every write fails. *)
Definition unplugged : PortSim :=
  mkPortSim (lit "COM8") (lit "n/a")
            (fun _ _ => None)
            (fun _ _ => Some (serial_error "write failed"))
            (fun _ _ _ => Ok []) (fun _ => Ok 0%Z).

(** A port that delivers a byte no UTF-8 text contains. *)
Definition noisy : PortSim :=
  mkPortSim (lit "COM9") (lit "n/a")
            (fun _ _ => None) (fun _ _ => None)
            (fun _ _ _ => Ok [xff; CR]) (fun _ => Ok 0%Z).

(** A port with bytes already waiting. *)
Definition chatty : PortSim :=
  mkPortSim (lit "COM5") (lit "n/a")
            (fun _ _ => None) (fun _ _ => None)
            (fun _ _ _ => Ok []) (fun _ => Ok 12%Z).

(** A connection as [serial.Serial(dev, 115200, timeout=0.5)] returns it. *)
Definition connect (p : PortSim) : Serial := mkSerial p 115200 (1 # 2) 0 0 0.

(** The same ports at every enumeration; a millisecond between two
    readings of the clock. *)
Definition env_of (ports : list PortSim) : Env :=
  mkEnv (fun _ => ports) (fun _ => 1000000%N).

(** The registry of the completion example of the specification. *)
Definition registry : Commands :=
  [ (lit "vol", mkHandler (Some (lit "up down")));
    (lit "freq", mkHandler (Some (lit "set get"))) ].

End Examples.
Import Examples.

(* ================================================================= *)
(** ** Further notions about runs *)

Module MoreProps.
Import Lib ScannerUtilsUniden.

(** A byte that is an ASCII whitespace character. *)
Definition ascii_blank (b : byte) : Prop :=
  (Byte.to_N b < 0x80)%N /\ isspace (Byte.to_N b) = true.

(** How often the log shows [time.sleep]. *)
Fixpoint sleeps (evs : list Event) : nat :=
  match evs with
  | [] => 0
  | EvSleep _ :: evs' => S (sleeps evs')
  | _ :: evs' => sleeps evs'
  end.

(** How many records of level [ERROR] the log holds. *)
Fixpoint errors_logged (evs : list Event) : nat :=
  match evs with
  | [] => 0
  | EvLog ERROR _ _ :: evs' => S (errors_logged evs')
  | _ :: evs' => errors_logged evs'
  end.

(** The two probe commands as they go over the wire. *)
Definition MDL_probe : bytes := blit "MDL" ++ [CR].
Definition WI_probe : bytes := blit "WI" ++ [CR].

(** What one pass over the ports may do: open with the given settings,
    close, write one of the two probes, read a CR-terminated line with a
    timeout of 1 s, log at level [INFO] or [WARNING]. *)
Definition pass_event (baud : Z) (tmo : Q) (e : Event) : Prop :=
  match e with
  | EvOpen _ b t _ => b = baud /\ t = tmo
  | EvClose _ => True
  | EvWrite _ data => data = MDL_probe \/ data = WI_probe
  | EvReadUntil _ expected t => expected = [CR] /\ t = 1%Q
  | EvLog level _ _ => level = INFO \/ level = WARNING
  | _ => False
  end.

(** What a whole discovery may do: the events of a pass, the enumeration
    of the ports, a sleep of 3 s, and a log record. *)
Definition discovery_event (baud : Z) (tmo : Q) (e : Event) : Prop :=
  match e with
  | EvComports => True
  | EvSleep secs => secs = 3%Q
  | EvLog _ _ _ => True
  | _ => pass_event baud tmo e
  end.

(** What [wait_for_data] may do: read the clock, look at [in_waiting],
    sleep 10 ms. *)
Definition wait_event (e : Event) : Prop :=
  match e with
  | EvTime => True
  | EvInWaiting _ => True
  | EvSleep secs => secs = (1 # 100)%Q
  | _ => False
  end.

(** An entry of [detected] as the two branches of the probe build it. *)
Definition entry_ok (x : Detected) : Prop :=
  let '(_, model, dialect) := x in
  (dialect = lit "uniden" /\ model <> []
   /\ Forall (fun c => Re.mdl_char c = true) model)
  \/ (dialect = lit "aordv1" /\ model = lit "AR-DV1").

Definition entry_device (x : Detected) : str := fst (fst x).

(** [a] is [b] with some elements left out. *)
Inductive Subseq {A : Type} : list A -> list A -> Prop :=
| Subseq_nil : Subseq [] []
| Subseq_skip x a b : Subseq a b -> Subseq a (x :: b)
| Subseq_take x a b : Subseq a b -> Subseq (x :: a) (x :: b).

(** A device that sends back whatever line it is sent. *)
Definition echo_of (line : bytes) : PortSim :=
  mkPortSim (lit "ECHO") (lit "loopback")
            (fun _ _ => None) (fun _ _ => None)
            (fun _ _ _ => Ok line) (fun _ => Ok 0%Z).

(** A registry whose key is written in capitals. *)
Definition shouting_registry : ReadlineSetup.Commands :=
  [ (lit "VOL", ReadlineSetup.mkHandler (Some (lit "up down"))) ].

(** Every normal result of [c] satisfies [R]. *)
Definition returns {S A} (R : A -> Prop) (c : M S A) : Prop :=
  forall s a s', c s = (Ok a, s') -> R a.

End MoreProps.
Import MoreProps.

(* ================================================================= *)
(** ** Strings: basic facts *)

Lemma str_eqb_refl (s : str) : str_eqb s s = true.
Proof.
  induction s as [|c s IH]; simpl; [reflexivity|].
  now rewrite N.eqb_refl, IH.
Qed.

Lemma str_eqb_eq (a b : str) : str_eqb a b = true <-> a = b.
Proof.
  split; [|intros ->; apply str_eqb_refl].
  revert b; induction a as [|x a IH]; intros [|y b]; simpl; try congruence.
  intros H. apply andb_true_iff in H as [Hx Hab].
  apply N.eqb_eq in Hx. f_equal; auto.
Qed.

Lemma lstrip_snoc (s : str) (c : N) :
  isspace c = false -> lstrip (s ++ [c]) = lstrip s ++ [c].
Proof.
  intros Hc. induction s as [|x s IH]; simpl.
  - now rewrite Hc.
  - destruct (isspace x); [exact IH | reflexivity].
Qed.

Lemma rstrip_cons (c : N) (s : str) :
  isspace c = false -> rstrip (c :: s) = c :: rstrip s.
Proof.
  intros Hc. unfold rstrip. simpl.
  rewrite lstrip_snoc by exact Hc.
  now rewrite rev_app_distr.
Qed.

Lemma lstrip_idem (s : str) : lstrip (lstrip s) = lstrip s.
Proof.
  induction s as [|c s IH]; simpl; [reflexivity|].
  destruct (isspace c) eqn:E; [exact IH|].
  simpl. now rewrite E.
Qed.

Lemma rstrip_idem (s : str) : rstrip (rstrip s) = rstrip s.
Proof.
  unfold rstrip. now rewrite rev_involutive, lstrip_idem.
Qed.

(** [strip] is idempotent: the second [.strip()] of
    [response.strip() == "AR-DV1"] changes nothing. *)
Lemma strip_idem (s : str) : strip (strip s) = strip s.
Proof.
  unfold strip.
  assert (H : lstrip (rstrip (lstrip s)) = rstrip (lstrip s)).
  { induction s as [|c s IH]; [reflexivity|].
    simpl. destruct (isspace c) eqn:E; [exact IH|].
    rewrite rstrip_cons by exact E. simpl. now rewrite E. }
  now rewrite H, rstrip_idem.
Qed.

Lemma span_all (p : N -> bool) (s : str) :
  Forall (fun c => p c = true) s -> Re.span p s = (s, []).
Proof.
  induction 1 as [|c s Hc _ IH]; simpl; [reflexivity|].
  now rewrite Hc, IH.
Qed.

(** A string of the model-response grammar is matched by the pattern of
    the source, and group 1 is what follows the first comma. *)
Lemma mdl_grammar_match (s : str) :
  matches_mdl_grammar s ->
  Re.mdl_pattern_match s = Some (after_first_comma s).
Proof.
  intros (payload & -> & Hne & Hall).
  cbn [lit app Re.mdl_pattern_match after_first_comma N_of_ascii].
  simpl. rewrite (span_all _ Hall).
  destruct payload; [congruence | reflexivity].
Qed.

(* ================================================================= *)
(** ** Event logs *)

Lemma held_app (cur : option str) (a b : list Event) :
  held cur (a ++ b) =
  match held cur a with Some cur' => held cur' b | None => None end.
Proof.
  revert cur; induction a as [|e a IH]; intros cur; [reflexivity|].
  destruct e as [|d ? ? [x|]|d| | | | | | | |], cur as [d'|]; simpl; auto.
  destruct (str_eqb d d'); auto.
Qed.

Lemma held_neutral (cur : option str) (evs : list Event) :
  Forall neutral evs -> held cur evs = Some cur.
Proof.
  induction 1 as [|e evs He _ IH]; [reflexivity|].
  destruct e, cur; simpl in *; tauto.
Qed.

Lemma passes_app (a b : list Event) : passes (a ++ b) = passes a + passes b.
Proof.
  induction a as [|e a IH]; [reflexivity|].
  destruct e; simpl; now rewrite IH.
Qed.

Lemma passes_neutral (evs : list Event) : Forall neutral evs -> passes evs = 0.
Proof.
  induction 1 as [|e evs He _ IH]; [reflexivity|].
  destruct e; simpl in *; tauto.
Qed.

Lemma open_attempts_app (a b : list Event) :
  open_attempts (a ++ b) = open_attempts a ++ open_attempts b.
Proof.
  induction a as [|e a IH]; [reflexivity|].
  destruct e; simpl; now rewrite IH.
Qed.

Lemma open_attempts_neutral (evs : list Event) :
  Forall neutral evs -> open_attempts evs = [].
Proof.
  induction 1 as [|e evs He _ IH]; [reflexivity|].
  destruct e; simpl in *; tauto.
Qed.

Section Emits.

Context {S : Type} (ev : S -> list Event) (P : Event -> Prop).

Lemma emits_ret {A} (a : A) : emits ev P (ret a).
Proof. intros s. exists []. simpl. now rewrite app_nil_r. Qed.

Lemma emits_raise {A} (e : PyExc) : emits ev P (@raise S A e).
Proof. intros s. exists []. simpl. now rewrite app_nil_r. Qed.

Lemma emits_bind {A B} (c : M S A) (k : A -> M S B) :
  emits ev P c -> (forall a, emits ev P (k a)) -> emits ev P (bind c k).
Proof.
  intros Hc Hk s. unfold bind.
  destruct (Hc s) as (e1 & E1 & F1).
  destruct (c s) as [[a|x] s1]; simpl in *.
  - destruct (Hk a s1) as (e2 & E2 & F2).
    exists (e1 ++ e2). rewrite E2, E1, app_assoc. split; [reflexivity|].
    apply Forall_app; auto.
  - exists e1; auto.
Qed.

Lemma emits_try {A} (c : M S A) (h : PyExc -> M S A) :
  emits ev P c -> (forall e, emits ev P (h e)) -> emits ev P (try_except c h).
Proof.
  intros Hc Hh s. unfold try_except.
  destruct (Hc s) as (e1 & E1 & F1).
  destruct (c s) as [[a|x] s1]; simpl in *.
  - exists e1; auto.
  - destruct (Hh x s1) as (e2 & E2 & F2).
    exists (e1 ++ e2). rewrite E2, E1, app_assoc. split; [reflexivity|].
    apply Forall_app; auto.
Qed.

End Emits.

Lemma emits_in_world (P : Event -> Prop) {A} (c : M World A) :
  emits events P c -> emits cevents P (in_world c).
Proof.
  intros Hc [ser w]. destruct (Hc w) as (evs & E & F).
  exists evs. unfold in_world, cevents. destruct (c w) as [r w']. simpl in *. auto.
Qed.

Lemma emits_logger (P : Event -> Prop) lvl tpl args :
  P (EvLog lvl tpl args) -> emits events P (logger lvl tpl args).
Proof. intros H w. exists [EvLog lvl tpl args]. simpl. auto. Qed.

Lemma emits_sleep (P : Event -> Prop) secs :
  P (EvSleep secs) -> emits events P (time_sleep secs).
Proof. intros H w. exists [EvSleep secs]. simpl. auto. Qed.

Lemma emits_assign_timeout (P : Event -> Prop) t :
  emits cevents P (assign_timeout t).
Proof. intros [ser w]. exists []. unfold cevents. simpl. now rewrite app_nil_r. Qed.

Lemma emits_write (P : Event -> Prop) data :
  (forall d, P (EvWrite d data)) -> emits cevents P (ser_write data).
Proof.
  intros H [ser w]. exists [EvWrite (device (port ser)) data].
  unfold ser_write, cevents. destruct (write_failure _ _ _); simpl; auto.
Qed.

Lemma emits_read_until (P : Event -> Prop) expected :
  (forall d t, P (EvReadUntil d expected t)) ->
  emits cevents P (ser_read_until expected).
Proof.
  intros H [ser w].
  exists [EvReadUntil (device (port ser)) expected (timeout ser)].
  unfold cevents. simpl. auto.
Qed.

Lemma emits_read_response (P : Event -> Prop) t :
  (forall d t', P (EvReadUntil d [CR] t')) -> emits cevents P (read_response t).
Proof.
  intros H. unfold read_response.
  apply emits_bind; [apply emits_assign_timeout|intros _].
  apply emits_bind; [now apply emits_read_until|intros raw].
  destruct (Utf8.decode raw); [apply emits_ret | apply emits_raise].
Qed.

(** The body of the [with] block only logs, writes and reads. *)
Lemma probe_neutral (p : PortSim) (detected : list Detected) :
  emits cevents neutral (probe p detected).
Proof.
  unfold probe.
  repeat first
    [ apply emits_ret
    | apply emits_in_world, emits_logger; exact I
    | apply emits_write; intros; exact I
    | apply emits_read_response; intros; exact I
    | apply emits_bind; [|intros ?]
    | match goal with
      | |- emits _ _ (match ?x with _ => _ end) => destruct x
      | |- emits _ _ (if ?x then _ else _) => destruct x
      end ].
Qed.

(* ================================================================= *)
(** ** One endpoint *)

(** The three ways an iteration of [for port in ports] can go: the block
    ran to its end, the block raised, or the port did not open.  In each the
    iteration itself ends normally. *)
Lemma check_port_shape baud tmo (p : PortSim) (d : list Detected) (w : World) :
  exists d' w' evs,
    check_port baud tmo p d w = (Ok d', w')
    /\ events w' = events w ++ evs
    /\ ((exists body,
           Forall neutral body
           /\ evs = EvOpen (device p) baud tmo None :: body
                    ++ [EvClose (device p)])
        \/ (exists body e,
              Forall neutral body /\ d' = d
              /\ evs = EvOpen (device p) baud tmo None :: body
                       ++ [EvClose (device p);
                           EvLog WARNING "Error checking port {}: {}"
                                 [ArgStr (device p); ArgExc e]])
        \/ (exists e,
              d' = d
              /\ evs = [EvOpen (device p) baud tmo (Some e);
                        EvLog WARNING "Error checking port {}: {}"
                              [ArgStr (device p); ArgExc e]])).
Proof.
  unfold check_port, try_except, with_Serial.
  destruct (open_failure p baud tmo) as [e|] eqn:Hopen.
  - do 3 eexists. split; [reflexivity|]. split.
    + simpl. rewrite <- app_assoc. reflexivity.
    + right; right. exists e. auto.
  - set (s0 := (mkSerial p baud tmo 0 0 0,
                emit (EvOpen (device p) baud tmo None) w)).
    destruct (probe_neutral p d s0) as (body & E & F).
    destruct (probe p d s0) as [[d'|e] [ser' w']]; unfold cevents in E;
      simpl in E.
    + do 3 eexists. split; [reflexivity|]. split.
      * simpl. rewrite E. rewrite <- !app_assoc. reflexivity.
      * left. exists body. auto.
    + do 3 eexists. split; [reflexivity|]. split.
      * simpl. rewrite E. rewrite <- !app_assoc. reflexivity.
      * right; left. exists body, e. auto.
Qed.

Lemma check_port_facts baud tmo (p : PortSim) (d : list Detected) (w : World) :
  exists d' w' evs,
    check_port baud tmo p d w = (Ok d', w')
    /\ events w' = events w ++ evs
    /\ held None evs = Some None
    /\ open_attempts evs = [device p]
    /\ passes evs = 0%nat.
Proof.
  destruct (check_port_shape baud tmo p d w)
    as (d' & w' & evs & Hrun & Hev & Hcase).
  exists d', w', evs. repeat split; auto;
    destruct Hcase as [(body & F & ->)|[(body & e & F & _ & ->)|(e & _ & ->)]];
    simpl;
    rewrite ?held_app, ?open_attempts_app, ?passes_app,
      ?(held_neutral _ F), ?(open_attempts_neutral F), ?(passes_neutral F);
    simpl; rewrite ?str_eqb_refl; reflexivity.
Qed.

Lemma for_ports_facts baud tmo (ports : list PortSim) :
  forall (d : list Detected) (w : World),
  exists d' w' evs,
    for_ports baud tmo ports d w = (Ok d', w')
    /\ events w' = events w ++ evs
    /\ held None evs = Some None
    /\ open_attempts evs = map device ports
    /\ passes evs = 0%nat.
Proof.
  induction ports as [|p ports IH]; intros d w.
  - exists d, w, []. simpl. rewrite app_nil_r. auto.
  - destruct (check_port_facts baud tmo p d w)
      as (d1 & w1 & e1 & R1 & E1 & H1 & O1 & P1).
    destruct (IH d1 w1) as (d2 & w2 & e2 & R2 & E2 & H2 & O2 & P2).
    exists d2, w2, (e1 ++ e2).
    simpl. unfold bind. rewrite R1, R2, E2, E1.
    rewrite held_app, H1, open_attempts_app, O1, O2, passes_app, P1, P2.
    rewrite app_assoc. repeat split; auto.
Qed.

(** The retry loop returns, whatever the ports do, once the fuel covers
    the retries that are left. *)
Lemma while_retries_facts (env : Env) baud tmo (max_retries : Z) (fuel : nat) :
  forall (retries : Z) (d : list Detected) (w : World),
    (Z.to_nat (max_retries - retries) <= fuel)%nat ->
    exists res w' evs,
      while_retries env fuel baud tmo max_retries retries d w
      = (Ok (Some res), w')
      /\ events w' = events w ++ evs
      /\ held None evs = Some None.
Proof.
  induction fuel as [|fuel IH]; intros retries d w Hfuel.
  - simpl. destruct (Z.ltb_spec retries max_retries); [lia|].
    do 3 eexists. split; [reflexivity|]. simpl. auto.
  - simpl. destruct (Z.ltb_spec retries max_retries).
    + unfold bind at 1. unfold comports at 1.
      set (w0 := mkWorld _ _ _ _).
      destruct (for_ports_facts baud tmo
                  (comports_result env (enumerations w)) d w0)
        as (d1 & w1 & e1 & R1 & E1 & H1 & _).
      unfold bind at 1. rewrite R1.
      destruct (truthy d1).
      * exists d1, w1, (EvComports :: e1). split; [reflexivity|].
        rewrite E1. subst w0. simpl. rewrite <- app_assoc. auto.
      * unfold bind at 1. unfold logger at 1.
        unfold bind at 1. unfold time_sleep at 1.
        destruct (IH (retries + 1)%Z d1
                     (emit (EvSleep 3)
                        (emit (EvLog INFO
                                 "No scanners found. Retrying in 3 seconds..."
                                 []) w1)))
          as (res & w2 & e2 & R2 & E2 & H2); [lia|].
        exists res, w2,
          (EvComports :: e1
           ++ [EvLog INFO "No scanners found. Retrying in 3 seconds..." [];
               EvSleep 3] ++ e2).
        split; [exact R2|]. split.
        -- rewrite E2. simpl. rewrite E1. subst w0. simpl.
           rewrite <- !app_assoc. reflexivity.
        -- simpl. rewrite held_app, H1. simpl. exact H2.
    + do 3 eexists. split; [reflexivity|]. simpl. auto.
Qed.

(* ================================================================= *)
(** ** The discovery loop: exceptions and connections *)

(** C7.  Whatever exception opening an endpoint or talking to it raises,
    the iteration for that endpoint ends normally: the exception is logged
    as a warning and [detected] is left as it was (a failed open; a failure
    inside the [with] block).  The loop over the ports then goes on: it
    attempts every port of the enumeration, in order, and ends normally;
    and [find_scanner_port] itself returns a list, never an exception. *)
Theorem endpoint_exceptions_are_contained (env : Env) baud tmo :
  (forall p d w e,
      open_failure p baud tmo = Some e ->
      check_port baud tmo p d w
      = (Ok d,
         emit (EvLog WARNING "Error checking port {}: {}"
                     [ArgStr (device p); ArgExc e])
              (emit (EvOpen (device p) baud tmo (Some e)) w)))
  /\ (forall p d w e ser' w',
        open_failure p baud tmo = None ->
        probe p d (mkSerial p baud tmo 0 0 0,
                   emit (EvOpen (device p) baud tmo None) w)
        = (Raise e, (ser', w')) ->
        check_port baud tmo p d w
        = (Ok d,
           emit (EvLog WARNING "Error checking port {}: {}"
                       [ArgStr (device p); ArgExc e])
                (emit (EvClose (device p)) w')))
  /\ (forall ports d w,
        exists d' w' evs,
          for_ports baud tmo ports d w = (Ok d', w')
          /\ events w' = events w ++ evs
          /\ open_attempts evs = map device ports)
  /\ (forall max_retries w,
        exists res w',
          find_scanner_port env baud tmo max_retries w = (Ok (Some res), w')).
Proof.
  repeat split.
  - intros p d w e Hopen.
    unfold check_port, try_except, with_Serial. now rewrite Hopen.
  - intros p d w e ser' w' Hopen Hprobe.
    unfold check_port, try_except, with_Serial. now rewrite Hopen, Hprobe.
  - intros ports d w.
    destruct (for_ports_facts baud tmo ports d w)
      as (d' & w' & evs & R & E & _ & O & _).
    now exists d', w', evs.
  - intros max_retries w.
    destruct (@while_retries_facts env baud tmo max_retries
                (Z.to_nat max_retries) 0%Z [] w)
      as (res & w' & _ & R & _); [rewrite Z.sub_0_r; apply Nat.le_refl|].
    now exists res, w'.
Qed.

(** A busy port followed by a scanner: the failure to open the first is
    logged and the second is still found. *)
Lemma endpoint_exceptions_are_contained_witness :
  check_port 115200 (1 # 2) busy [] world0
  = (Ok [],
     emit (EvLog WARNING "Error checking port {}: {}"
                 [ArgStr (device busy);
                  ArgExc (serial_error "could not open port")])
          (emit (EvOpen (device busy) 115200 (1 # 2)
                        (Some (serial_error "could not open port"))) world0)).
Proof.
  apply (proj1 (endpoint_exceptions_are_contained
                  (env_of [busy; uniden_A]) 115200 (1 # 2))).
  reflexivity.
Defined.

(** C8.  A connection that was opened is closed before the next endpoint
    is opened, before the next pass starts and before the function returns:
    read from "nothing held", the log of every iteration of the loop over
    the ports, and the log of every run of [find_scanner_port], never opens
    or enumerates while a connection is held, closes what it opened, and
    ends with nothing held.  The oracles are arbitrary, so this covers a
    match, a mismatch, a timeout, bytes that do not decode and every other
    exception. *)
Theorem connection_closed_on_every_path (env : Env) baud tmo :
  (forall p d w,
      exists d' w' evs,
        check_port baud tmo p d w = (Ok d', w')
        /\ events w' = events w ++ evs
        /\ held None evs = Some None)
  /\ (forall max_retries w,
        exists res w' evs,
          find_scanner_port env baud tmo max_retries w = (Ok (Some res), w')
          /\ events w' = events w ++ evs
          /\ held None evs = Some None).
Proof.
  split.
  - intros p d w.
    destruct (check_port_facts baud tmo p d w)
      as (d' & w' & evs & R & E & H & _).
    now exists d', w', evs.
  - intros max_retries w.
    apply while_retries_facts. rewrite Z.sub_0_r. apply Nat.le_refl.
Qed.

(* ================================================================= *)
(** ** Classification *)

(** C5.  When the endpoint opens, takes the [MDL] probe and answers with
    bytes whose decoded, stripped text has the form [MDL,<payload>]
    (payload non-empty, over letters, digits and commas), the iteration
    appends [(device, payload, "uniden")] to [detected], the payload being
    what follows the first comma, and the only bytes written to the
    endpoint are the [MDL] probe: the [WI] probe is not sent. *)
Theorem uniden_response_classified baud tmo (p : PortSim)
        (d : list Detected) (w : World) (raw : bytes) (text : str) :
  open_failure p baud tmo = None ->
  write_failure p 0 (blit "MDL" ++ [CR]) = None ->
  read_until_result p 0 [CR] 1%Q = Ok raw ->
  Utf8.decode raw = Some text ->
  matches_mdl_grammar (strip text) ->
  exists w' evs,
    check_port baud tmo p d w
    = (Ok (d ++ [(device p, after_first_comma (strip text), lit "uniden")]),
       w')
    /\ events w' = events w ++ evs
    /\ written evs = [blit "MDL" ++ [CR]]
    /\ held None evs = Some None.
Proof.
  intros Hopen Hwrite Hread Hdec Hgram.
  apply mdl_grammar_match in Hgram.
  unfold check_port, try_except, with_Serial. rewrite Hopen.
  unfold probe, read_response, read_response_timeout_default, bind, in_world,
    logger, ser_write, assign_timeout, ser_read_until, ret.
  cbn [port writes reads timeout set_timeout count_write count_read fst snd].
  rewrite Hwrite. cbn [port writes reads timeout set_timeout count_write
                       count_read fst snd].
  rewrite Hread, Hdec, Hgram.
  do 2 eexists. split; [reflexivity|]. split.
  - cbn [events emit]. rewrite <- !app_assoc. reflexivity.
  - simpl. now rewrite str_eqb_refl.
Qed.

(** The scenario of the specification: endpoint A answers
    [MDL,BCD436HP]. *)
Lemma uniden_response_classified_witness :
  exists w' evs,
    check_port 115200 (1 # 2) uniden_A [] world0
    = (Ok [(lit "A", lit "BCD436HP", lit "uniden")], w')
    /\ events w' = events world0 ++ evs
    /\ written evs = [blit "MDL" ++ [CR]]
    /\ held None evs = Some None.
Proof.
  apply (@uniden_response_classified 115200 (1 # 2) uniden_A [] world0
           (blit "MDL,BCD436HP" ++ [CR]) (lit "MDL,BCD436HP" ++ [13%N]));
    try reflexivity.
  exists (lit "BCD436HP"). repeat split; [discriminate|].
  repeat constructor.
Defined.

(** C6.  When the [MDL] answer is no model response, so that the [WI]
    probe is sent, and the endpoint answers it with bytes that decode to
    [text]: the endpoint is recorded as [(device, "AR-DV1", "aordv1")]
    exactly when [text] with the whitespace at both ends removed is
    ["AR-DV1"], and nothing is recorded otherwise.  The test is an equality
    on the stripped text, so blanks, tabs or line ends around the identity
    in the raw bytes do not matter, and a longer line does not pass. *)
Theorem aordv1_response_classified baud tmo (p : PortSim)
        (d : list Detected) (w : World) (raw0 raw : bytes) (text0 text : str) :
  open_failure p baud tmo = None ->
  write_failure p 0 (blit "MDL" ++ [CR]) = None ->
  read_until_result p 0 [CR] 1%Q = Ok raw0 ->
  Utf8.decode raw0 = Some text0 ->
  Re.mdl_pattern_match (strip text0) = None ->
  write_failure p 1 (blit "WI" ++ [CR]) = None ->
  read_until_result p 1 [CR] 1%Q = Ok raw ->
  Utf8.decode raw = Some text ->
  (strip text = lit "AR-DV1" ->
   fst (check_port baud tmo p d w)
   = Ok (d ++ [(device p, lit "AR-DV1", lit "aordv1")]))
  /\ (strip text <> lit "AR-DV1" ->
      fst (check_port baud tmo p d w) = Ok d).
Proof.
  intros Hopen Hw0 Hr0 Hd0 Hno Hw1 Hr1 Hd1.
  assert (Hrun : fst (check_port baud tmo p d w)
                 = Ok (if str_eqb (strip (strip text)) (lit "AR-DV1")
                       then d ++ [(device p, lit "AR-DV1", lit "aordv1")]
                       else d)).
  { unfold check_port, try_except, with_Serial. rewrite Hopen.
    unfold probe, read_response, read_response_timeout_default, bind,
      in_world, logger, ser_write, assign_timeout, ser_read_until, ret.
    cbn [port writes reads timeout set_timeout count_write count_read fst snd].
    rewrite Hw0.
    cbn [port writes reads timeout set_timeout count_write count_read fst snd].
    rewrite Hr0, Hd0, Hno.
    cbn [port writes reads timeout set_timeout count_write count_read fst snd].
    rewrite Hw1.
    cbn [port writes reads timeout set_timeout count_write count_read fst snd].
    rewrite Hr1, Hd1.
    destruct (str_eqb (strip (strip text)) (lit "AR-DV1")); reflexivity. }
  rewrite Hrun, strip_idem. split; intros H.
  - now rewrite (proj2 (str_eqb_eq _ _) H).
  - destruct (str_eqb (strip text) (lit "AR-DV1")) eqn:E; [|reflexivity].
    apply str_eqb_eq in E. contradiction.
Qed.

(** The scenario of the specification: endpoint B answers garbage to
    [MDL] and the identity, with blanks around it, to [WI]. *)
Lemma aordv1_response_classified_witness :
  fst (check_port 115200 (1 # 2) aor_B [] world0)
  = Ok [(lit "B", lit "AR-DV1", lit "aordv1")].
Proof.
  apply (proj1 (@aordv1_response_classified 115200 (1 # 2) aor_B [] world0
                  (blit "?" ++ [CR]) (blit "  AR-DV1 " ++ [CR])
                  (lit "?" ++ [13%N]) (lit "  AR-DV1 " ++ [13%N])
                  eq_refl eq_refl eq_refl eq_refl eq_refl eq_refl eq_refl
                  eq_refl)).
  reflexivity.
Defined.

(* ================================================================= *)
(** ** Transport *)

Lemma encode_app (a b : str) :
  Utf8.encode (a ++ b) =
  match Utf8.encode a, Utf8.encode b with
  | Some x, Some y => Some (x ++ y)
  | _, _ => None
  end.
Proof.
  induction a as [|c a IH]; simpl.
  - now destruct (Utf8.encode b).
  - rewrite IH. destruct (Utf8.encode_char c), (Utf8.encode a), (Utf8.encode b);
      try reflexivity.
    now rewrite app_assoc.
Qed.

(** The bytes [send_command] writes: the command and one carriage return. *)
Lemma encode_command (cmd : str) (data : bytes) :
  Utf8.encode cmd = Some data ->
  Utf8.encode (cmd ++ [0x0D%N]) = Some (data ++ [CR]).
Proof. intros H. rewrite encode_app, H. reflexivity. Qed.

Lemma read_response_run (t : Q) (ser : Serial) (w : World) :
  read_response t (ser, w)
  = (decoded (read_until_result (port ser) (reads ser) [CR] t),
     (count_read (set_timeout t ser),
      emit (EvReadUntil (device (port ser)) [CR] t) w)).
Proof.
  unfold read_response, bind, assign_timeout, ser_read_until, decoded, ret, raise.
  cbn [port reads timeout set_timeout].
  destruct (read_until_result (port ser) (reads ser) [CR] t) as [raw|e];
    [|reflexivity].
  destruct (Utf8.decode raw); reflexivity.
Qed.

(** C3 as stated does not hold: on a connection opened with the 0.5 s
    probe timeout, the line read of [send_command] runs with 1 s. *)
Lemma send_command_read_timeout_counterexample :
  exists t,
    read_timeouts
      (events (snd (snd (send_command (lit "MDL")
                                      (connect (silent "COM1"), world0)))))
    = [t]
    /\ ~ (t == timeout (connect (silent "COM1")))%Q.
Proof. exists 1%Q. split; [reflexivity | discriminate]. Qed.

(** C3, amended.  [send_command] writes the UTF-8 bytes of the command
    followed by one carriage return and, when the write succeeds, sets the
    connection's timeout to 1 s and performs the line read with that
    timeout, whatever timeout the connection carried before; it returns the
    decoded, stripped text, or raises what the read or the decoding
    raises. *)
Theorem send_command_writes_then_reads_with_one_second
        (cmd : str) (data : bytes) (ser : Serial) (w : World) :
  Utf8.encode cmd = Some data ->
  write_failure (port ser) (writes ser) (data ++ [CR]) = None ->
  send_command cmd (ser, w)
  = (decoded (read_until_result (port ser) (reads ser) [CR] 1%Q),
     (count_read (set_timeout 1%Q (count_write ser)),
      emit (EvReadUntil (device (port ser)) [CR] 1%Q)
           (emit (EvWrite (device (port ser)) (data ++ [CR])) w))).
Proof.
  intros Henc Hwrite. unfold send_command.
  rewrite (encode_command _ Henc).
  unfold bind at 1. unfold ser_write. rewrite Hwrite.
  rewrite read_response_run. reflexivity.
Qed.

Lemma send_command_writes_then_reads_with_one_second_witness :
  send_command (lit "MDL") (connect uniden_A, world0)
  = (Ok (lit "MDL,BCD436HP"),
     (mkSerial uniden_A 115200 1%Q 1 1 0,
      mkWorld [EvWrite (lit "A") (blit "MDL" ++ [CR]);
               EvReadUntil (lit "A") [CR] 1%Q] 0 0 0)).
Proof.
  apply (@send_command_writes_then_reads_with_one_second
           (lit "MDL") (blit "MDL") (connect uniden_A) world0);
    reflexivity.
Defined.

(** C4 as stated does not hold: on bytes that are not UTF-8 text
    [read_response] raises instead of returning the empty response. *)
Lemma read_response_decode_counterexample :
  fst (read_response 1%Q (connect noisy, world0)) = Raise decode_error
  /\ fst (read_response 1%Q (connect noisy, world0)) <> Ok [].
Proof. split; [reflexivity | discriminate]. Qed.

(** C4, amended.  When the bytes a line read returns are not valid UTF-8,
    [read_response] raises [UnicodeDecodeError] to its caller, with the
    timeout already set and the read done.  An empty response comes out of
    it only at the discovery loop: when that happens to the first read on
    an endpoint, the iteration catches the error, closes the connection,
    logs a warning and leaves [detected] unchanged, without sending the
    second probe. *)
Theorem undecodable_bytes_raise_in_read_response :
  (forall (t : Q) (ser : Serial) (w : World) (raw : bytes),
      read_until_result (port ser) (reads ser) [CR] t = Ok raw ->
      Utf8.decode raw = None ->
      read_response t (ser, w)
      = (Raise decode_error,
         (count_read (set_timeout t ser),
          emit (EvReadUntil (device (port ser)) [CR] t) w)))
  /\ (forall baud tmo (p : PortSim) (d : list Detected) (w : World)
             (raw : bytes),
        open_failure p baud tmo = None ->
        write_failure p 0 (blit "MDL" ++ [CR]) = None ->
        read_until_result p 0 [CR] 1%Q = Ok raw ->
        Utf8.decode raw = None ->
        exists w' evs,
          check_port baud tmo p d w = (Ok d, w')
          /\ events w'
             = events w ++ evs
               ++ [EvClose (device p);
                   EvLog WARNING "Error checking port {}: {}"
                         [ArgStr (device p); ArgExc decode_error]]
          /\ written evs = [blit "MDL" ++ [CR]]).
Proof.
  split.
  - intros t ser w raw Hread Hdec.
    rewrite read_response_run, Hread. unfold decoded. now rewrite Hdec.
  - intros baud tmo p d w raw Hopen Hwrite Hread Hdec.
    unfold check_port, try_except, with_Serial. rewrite Hopen.
    unfold probe, read_response, read_response_timeout_default, bind,
      in_world, logger, ser_write, assign_timeout, ser_read_until, ret, raise.
    cbn [port writes reads timeout set_timeout count_write count_read fst snd].
    rewrite Hwrite.
    cbn [port writes reads timeout set_timeout count_write count_read fst snd].
    rewrite Hread, Hdec.
    eexists.
    exists [EvOpen (device p) baud tmo None;
            EvLog INFO "Trying port: {}" [ArgStr (device p)];
            EvLog INFO "Port description: {}" [ArgStr (description p)];
            EvWrite (device p) (blit "MDL" ++ [CR]);
            EvReadUntil (device p) [CR] 1%Q].
    split; [reflexivity|]. split; [|reflexivity].
    cbn [events emit]. rewrite <- !app_assoc. reflexivity.
Qed.

Lemma undecodable_bytes_raise_in_read_response_witness :
  read_response 1%Q (connect noisy, world0)
  = (Raise decode_error,
     (mkSerial noisy 115200 1%Q 0 1 0,
      mkWorld [EvReadUntil (lit "COM9") [CR] 1%Q] 0 0 0)).
Proof.
  apply (proj1 undecodable_bytes_raise_in_read_response
               1%Q (connect noisy) world0 [xff; CR]);
    reflexivity.
Defined.

(** C9 as stated does not hold for a call whose write raises: the read
    is never reached and the connection keeps the timeout it was opened
    with. *)
Lemma send_command_timeout_counterexample :
  fst (send_command (lit "MDL") (connect unplugged, world0))
  = Raise (serial_error "write failed")
  /\ timeout (fst (snd (send_command (lit "MDL")
                                     (connect unplugged, world0))))
     = (1 # 2)%Q
  /\ ~ ((1 # 2) == 1)%Q.
Proof. split; [reflexivity | split; [reflexivity | discriminate]]. Qed.

(** C9, amended.  [read_response] with its default argument leaves the
    connection's timeout at 1 s, whatever it was and whether the read
    returns or raises.  So does every call of [send_command] whose command
    was encoded and written without an exception.  And in the discovery
    loop, once the [MDL] probe has been written, the connection ends the
    [with] block with a timeout of 1 s, whatever timeout it was opened
    with. *)
Theorem read_response_overwrites_timeout :
  (forall (ser : Serial) (w : World),
      timeout (fst (snd (read_response read_response_timeout_default (ser, w))))
      = 1%Q)
  /\ (forall (cmd : str) (data : bytes) (ser : Serial) (w : World),
        Utf8.encode cmd = Some data ->
        write_failure (port ser) (writes ser) (data ++ [CR]) = None ->
        timeout (fst (snd (send_command cmd (ser, w)))) = 1%Q)
  /\ (forall baud tmo (p : PortSim) (d : list Detected) (w : World),
        write_failure p 0 (blit "MDL" ++ [CR]) = None ->
        timeout (fst (snd (probe p d (mkSerial p baud tmo 0 0 0, w)))) = 1%Q).
Proof.
  repeat split.
  - intros ser w. now rewrite read_response_run.
  - intros cmd data ser w Henc Hwrite.
    unfold send_command. rewrite (encode_command _ Henc).
    unfold bind at 1. unfold ser_write. rewrite Hwrite.
    now rewrite read_response_run.
  - intros baud tmo p d w Hwrite.
    unfold probe, read_response_timeout_default, bind, in_world, logger,
      ser_write.
    cbn [port writes]. rewrite Hwrite.
    rewrite read_response_run. cbn [port reads count_write set_timeout].
    destruct (decoded (read_until_result p 0 [CR] 1%Q)) as [response|e];
      [|reflexivity].
    destruct (Re.mdl_pattern_match response); [reflexivity|].
    cbn [port writes reads count_read count_write set_timeout].
    destruct (write_failure p 1 (blit "WI" ++ [CR])); [reflexivity|].
    rewrite read_response_run.
    destruct (decoded _) as [response'|e]; [|reflexivity].
    destruct (str_eqb _ _); reflexivity.
Qed.

Lemma read_response_overwrites_timeout_witness :
  timeout (fst (snd (send_command (lit "WI") (connect aor_B, world0)))) = 1%Q.
Proof.
  apply (proj1 (proj2 read_response_overwrites_timeout)
               (lit "WI") (blit "WI") (connect aor_B) world0);
    reflexivity.
Defined.

(* ================================================================= *)
(** ** Waiting for data *)

Lemma seconds_le (a b : N) : (a <= b)%N -> (seconds a <= seconds b)%Q.
Proof. intros H. unfold seconds, Qle. simpl. lia. Qed.

Lemma Qltb_elapsed (a e : N) (max_wait : Q) :
  (max_wait <= 0)%Q -> Qltb (seconds (a + e) - seconds a) max_wait = false.
Proof.
  intros H. unfold Qltb. apply negb_false_iff, Qle_bool_iff.
  apply Qle_trans with (y := 0%Q); [exact H|].
  apply (proj1 (Qle_minus_iff (seconds a) (seconds (a + e)))).
  apply seconds_le. lia.
Qed.

(** C10.  With [max_wait <= 0] the loop condition of [wait_for_data] is
    false at its first test, so the call returns [False] after reading the
    clock twice: the connection is returned as it was and [in_waiting] is
    never looked at, whatever the port would have reported.  One unit of
    fuel is enough. *)
Theorem wait_for_data_nonpositive_max_wait
        (env : Env) (fuel : nat) (max_wait : Q) (ser : Serial) (w : World) :
  (max_wait <= 0)%Q ->
  exists w' evs,
    wait_for_data env (S fuel) max_wait (ser, w) = (Ok (Some false), (ser, w'))
    /\ events w' = events w ++ evs
    /\ evs = [EvTime; EvTime]
    /\ inspections evs = 0%nat.
Proof.
  intros H. unfold wait_for_data. cbn [wait_loop].
  unfold bind, in_world, time_time.
  cbn [events enumerations clock_reads clock_ns].
  rewrite (Qltb_elapsed _ _ H).
  eexists. exists [EvTime; EvTime].
  split; [reflexivity|]. split; [|split; reflexivity].
  cbn [events]. now rewrite <- app_assoc.
Qed.

(** A port with twelve bytes waiting, asked with [max_wait = 0]. *)
Lemma wait_for_data_nonpositive_max_wait_witness :
  exists w' evs,
    wait_for_data (env_of [chatty]) 1 0%Q (connect chatty, world0)
    = (Ok (Some false), (connect chatty, w'))
    /\ events w' = events world0 ++ evs
    /\ evs = [EvTime; EvTime]
    /\ inspections evs = 0%nat.
Proof.
  apply (@wait_for_data_nonpositive_max_wait
           (env_of [chatty]) 0 0%Q (connect chatty) world0).
  discriminate.
Defined.

(* ================================================================= *)
(** ** The retry loop *)

(** An endpoint nothing answers on adds nothing to [detected]. *)
Lemma check_port_silent baud tmo (p : PortSim) (d : list Detected) (w : World) :
  non_responsive p -> fst (check_port baud tmo p d w) = Ok d.
Proof.
  intros (Hopen & Hwrite & Hread).
  unfold check_port, try_except, with_Serial. rewrite Hopen.
  unfold probe, read_response_timeout_default, bind, in_world, logger,
    ser_write.
  cbn [port writes]. rewrite Hwrite.
  rewrite read_response_run. cbn [port reads count_write set_timeout].
  rewrite Hread. cbn [decoded Utf8.decode strip lstrip rstrip rev app
                      Re.mdl_pattern_match].
  cbn [port writes reads count_read count_write set_timeout].
  rewrite Hwrite. rewrite read_response_run.
  cbn [port writes reads count_read count_write set_timeout].
  rewrite Hread. reflexivity.
Qed.

Lemma for_ports_silent baud tmo (ports : list PortSim) :
  Forall non_responsive ports ->
  forall (d : list Detected) (w : World),
  exists w' evs,
    for_ports baud tmo ports d w = (Ok d, w')
    /\ events w' = events w ++ evs
    /\ open_attempts evs = map device ports
    /\ passes evs = 0%nat.
Proof.
  intros Hall d w.
  destruct (for_ports_facts baud tmo ports d w)
    as (d' & w' & evs & R & E & _ & O & P).
  assert (Hd : fst (for_ports baud tmo ports d w) = Ok d).
  { clear -Hall. revert d w.
    induction Hall as [|p ports Hp _ IH]; intros d w; [reflexivity|].
    simpl. unfold bind.
    destruct (check_port_facts baud tmo p d w) as (d1 & w1 & _ & R1 & _).
    pose proof (check_port_silent baud tmo d w Hp) as H1.
    rewrite R1 in H1 |- *. simpl in H1. injection H1 as ->. apply IH. }
  rewrite R in Hd. simpl in Hd. injection Hd as ->.
  now exists w', evs.
Qed.

(** With only silent endpoints the loop runs until the counter reaches
    [max_retries]: one pass for each value of [retries] below it. *)
Lemma while_retries_silent (env : Env) baud tmo (max_retries : Z) (n : nat) :
  (forall k, Forall non_responsive (comports_result env k)) ->
  (forall k, List.length (comports_result env k) = n) ->
  forall (fuel : nat) (retries : Z) (w : World),
    (Z.to_nat (max_retries - retries) <= fuel)%nat ->
    exists w' evs,
      while_retries env fuel baud tmo max_retries retries [] w
      = (Ok (Some []), w')
      /\ events w' = events w ++ evs
      /\ passes evs = Z.to_nat (max_retries - retries)
      /\ List.length (open_attempts evs)
         = (Z.to_nat (max_retries - retries) * n)%nat.
Proof.
  intros Hsilent Hcount.
  induction fuel as [|fuel IH]; intros retries w Hfuel.
  - simpl. destruct (Z.ltb_spec retries max_retries); [lia|].
    do 2 eexists. split; [reflexivity|]. simpl.
    replace (Z.to_nat (max_retries - retries)) with 0%nat by lia. auto.
  - simpl. destruct (Z.ltb_spec retries max_retries).
    + unfold bind at 1. unfold comports at 1.
      set (w0 := mkWorld _ _ _ _).
      destruct (for_ports_silent baud tmo (Hsilent (enumerations w)) [] w0)
        as (w1 & e1 & R1 & E1 & O1 & P1).
      unfold bind at 1. rewrite R1. cbn [truthy].
      unfold bind at 1. unfold logger at 1.
      unfold bind at 1. unfold time_sleep at 1.
      destruct (IH (retries + 1)%Z
                   (emit (EvSleep 3)
                      (emit (EvLog INFO
                               "No scanners found. Retrying in 3 seconds..."
                               []) w1)))
        as (w2 & e2 & R2 & E2 & P2 & O2); [lia|].
      exists w2,
        (EvComports :: e1
         ++ [EvLog INFO "No scanners found. Retrying in 3 seconds..." [];
             EvSleep 3] ++ e2).
      split; [exact R2|]. split; [|split].
      * rewrite E2. simpl. rewrite E1. subst w0. simpl.
        rewrite <- !app_assoc. reflexivity.
      * simpl. rewrite passes_app, P1. simpl. rewrite P2. lia.
      * simpl. rewrite open_attempts_app, length_app, O1, length_map, Hcount.
        simpl. rewrite O2.
        replace (Z.to_nat (max_retries - retries))
          with (S (Z.to_nat (max_retries - (retries + 1)))) by lia.
        simpl. reflexivity.
    + do 2 eexists. split; [reflexivity|]. simpl.
      replace (Z.to_nat (max_retries - retries)) with 0%nat by lia. auto.
Qed.

(** C1.  With [n] endpoints at every enumeration, none of which answers,
    [find_scanner_port] returns the empty list after exactly
    [max_retries] passes (none when [max_retries <= 0]), having tried to
    open [max_retries * n] endpoints: the number of passes is the value of
    [max_retries], not one more. *)
Theorem silent_discovery_runs_max_retries_passes
        (env : Env) baud tmo (max_retries : Z) (n : nat) (w : World) :
  (forall k, Forall non_responsive (comports_result env k)) ->
  (forall k, List.length (comports_result env k) = n) ->
  exists w' evs,
    find_scanner_port env baud tmo max_retries w = (Ok (Some []), w')
    /\ events w' = events w ++ evs
    /\ passes evs = Z.to_nat max_retries
    /\ List.length (open_attempts evs) = (Z.to_nat max_retries * n)%nat.
Proof.
  intros Hsilent Hcount.
  destruct (@while_retries_silent env baud tmo max_retries n Hsilent Hcount
              (Z.to_nat max_retries) 0%Z w)
    as (w' & evs & R & E & P & O); [rewrite Z.sub_0_r; apply Nat.le_refl|].
  rewrite Z.sub_0_r in P, O. now exists w', evs.
Qed.

Lemma silent_discovery_runs_max_retries_passes_witness :
  exists w' evs,
    find_scanner_port (env_of [silent "COM1"]) 115200 (1 # 2) 2 world0
    = (Ok (Some []), w')
    /\ events w' = events world0 ++ evs
    /\ passes evs = 2%nat
    /\ List.length (open_attempts evs) = 2%nat.
Proof.
  apply (@silent_discovery_runs_max_retries_passes
           (env_of [silent "COM1"]) 115200 (1 # 2) 2%Z 1%nat world0).
  - intros k. repeat constructor.
  - reflexivity.
Defined.

(* ================================================================= *)
(** ** Completion *)

Lemma lstrip_nonspace (s : str) : Forall nonspace s -> lstrip s = s.
Proof. destruct 1 as [|c s Hc _]; simpl; [reflexivity | now rewrite Hc]. Qed.

(** A word followed by one blank is stripped back to the word. *)
Lemma strip_word_blank (name : str) :
  Forall nonspace name -> strip (name ++ lit " ") = name.
Proof.
  intros H. destruct name as [|c s]; [reflexivity|].
  unfold strip, rstrip.
  assert (Hl : lstrip ((c :: s) ++ lit " ") = (c :: s) ++ lit " ").
  { inversion H as [|? ? Hc _]; subst. simpl. now rewrite Hc. }
  rewrite Hl, rev_app_distr.
  change (rev (lit " ") ++ rev (c :: s)) with (32%N :: rev (c :: s)).
  change (lstrip (32%N :: rev (c :: s))) with (lstrip (rev (c :: s))).
  rewrite lstrip_nonspace by now apply Forall_rev.
  apply rev_involutive.
Qed.

Lemma split_from_word (s : str) :
  Forall nonspace s ->
  forall cur,
    split_from cur s
    = match rev cur ++ s with [] => [] | _ :: _ => [rev cur ++ s] end.
Proof.
  induction 1 as [|c s Hc _ IH]; intros cur; simpl.
  - rewrite app_nil_r. destruct cur as [|x cur]; [reflexivity|].
    simpl. destruct (rev cur); reflexivity.
  - rewrite Hc, IH. simpl. rewrite <- app_assoc. simpl.
    destruct (rev cur); reflexivity.
Qed.

Lemma endswith_blank_word (name : str) :
  Forall nonspace name -> endswith name (lit " ") = false.
Proof.
  intros H. unfold endswith. apply Forall_rev in H.
  destruct H as [|c s Hc _]; simpl; [reflexivity|].
  destruct (N.eqb_spec c 32) as [->|]; [discriminate Hc | reflexivity].
Qed.

(** C2.  When the line buffer is one word followed by a blank, [completer]
    strips the buffer before it tests for the trailing blank, so it takes
    the branch for top-level commands: the candidates are the registry's
    command names that start with the completion text (all of them when the
    text is empty), whether or not the word is a command, and never that
    command's sub-arguments. *)
Theorem completer_after_trailing_space
        (lower : str -> str) (COMMANDS : Commands) (name text : str) :
  name <> [] ->
  Forall nonspace name ->
  completer_matches lower COMMANDS (name ++ lit " ") text
  = filter (fun cmd => startswith cmd text) (keys COMMANDS).
Proof.
  intros Hne Hword. unfold completer_matches.
  rewrite (strip_word_blank Hword), (endswith_blank_word Hword).
  unfold split. rewrite (split_from_word Hword).
  destruct name as [|c name]; [congruence | reflexivity].
Qed.

(** The registry of the specification and the buffer ["vol "]: the
    candidates are the two command names, not [up] and [down]. *)
Lemma completer_after_trailing_space_witness :
  completer_matches ascii_lower registry (lit "vol ") []
  = [lit "vol"; lit "freq"].
Proof.
  apply (@completer_after_trailing_space ascii_lower registry (lit "vol") []).
  - discriminate.
  - repeat constructor.
Defined.

(* ================================================================= *)
(** ** Runs on concrete inputs *)

(** Endpoint A answers [MDL,BCD436HP]: one pass, one result. *)
Example discovery_finds_uniden :
  fst (find_scanner_port (env_of [silent "COM1"; uniden_A]) 115200 (1 # 2) 2
                         world0)
  = Ok (Some [(lit "A", lit "BCD436HP", lit "uniden")]).
Proof. reflexivity. Qed.

(** Endpoint B answers garbage to [MDL] and the identity to [WI]; the busy
    port before it does not stop the scan. *)
Example discovery_finds_aordv1 :
  fst (find_scanner_port (env_of [busy; aor_B; noisy]) 115200 (1 # 2) 2
                         world0)
  = Ok (Some [(lit "B", lit "AR-DV1", lit "aordv1")]).
Proof. reflexivity. Qed.

(** The first successful pass ends the scan: one enumeration only. *)
Example discovery_stops_after_first_hit :
  passes (events (snd (find_scanner_port (env_of [uniden_A]) 115200 (1 # 2) 2
                                         world0)))
  = 1%nat.
Proof. reflexivity. Qed.

(** With a positive bound and bytes waiting, [wait_for_data] looks at the
    port once and returns [True]. *)
Example wait_for_data_sees_bytes :
  fst (wait_for_data (env_of [chatty]) 5 (3 # 10) (connect chatty, world0))
  = Ok (Some true).
Proof. reflexivity. Qed.

(** With a positive bound and nothing waiting, it polls until the bound has
    passed: here 1 ms elapses between clock readings and the bound is 3 ms. *)
Example wait_for_data_times_out :
  fst (wait_for_data (env_of [silent "COM1"]) 5 (3 # 1000)
                     (connect (silent "COM1"), world0))
  = Ok (Some false).
Proof. reflexivity. Qed.

(** The completer on the registry of the specification. *)
Example complete_empty_buffer :
  completer_matches ascii_lower registry [] [] = [lit "vol"; lit "freq"].
Proof. reflexivity. Qed.

Example complete_first_word :
  completer_matches ascii_lower registry (lit "v") (lit "v") = [lit "vol"].
Proof. reflexivity. Qed.

Example complete_sub_argument :
  completer_matches ascii_lower registry (lit "vol u") (lit "u") = [lit "up"].
Proof. reflexivity. Qed.

Example complete_sub_argument_upper_case :
  completer_matches ascii_lower registry (lit "VOL d") (lit "d") = [lit "down"].
Proof. reflexivity. Qed.

Example complete_unknown_command :
  completer_matches ascii_lower registry (lit "xyz a") (lit "a") = [].
Proof. reflexivity. Qed.

Example complete_state_index :
  completer ascii_lower registry (lit "v") (lit "v") 0 = Some (lit "vol")
  /\ completer ascii_lower registry (lit "v") (lit "v") 1 = None.
Proof. split; reflexivity. Qed.

(* ================================================================= *)
(** ** UTF-8: what is written can be read back *)

Lemma between_spec (lo hi x : N) :
  between lo hi x = true <-> (lo <= x <= hi)%N.
Proof.
  unfold between. rewrite andb_true_iff, !N.leb_le. tauto.
Qed.

Lemma between_out (lo hi x : N) :
  (x < lo \/ hi < x)%N -> between lo hi x = false.
Proof.
  intros H. destruct (between lo hi x) eqn:E; [|reflexivity].
  apply between_spec in E. lia.
Qed.

Lemma to_N_byte_of (n : N) : (n < 256)%N -> Byte.to_N (Utf8.byte_of n) = n.
Proof.
  intros H. unfold Utf8.byte_of.
  destruct (Byte.of_N n) as [b|] eqn:E.
  - now apply Byte.to_of_N.
  - apply Byte.of_N_None_iff in E. lia.
Qed.

Lemma decode_1 (b : byte) (r : bytes) :
  (Byte.to_N b < 0x80)%N ->
  Utf8.decode (b :: r) = option_map (cons (Byte.to_N b)) (Utf8.decode r).
Proof.
  intros H. cbn [Utf8.decode]. cbv zeta.
  now rewrite (proj2 (N.ltb_lt _ _) H).
Qed.

Lemma decode_2 (b0 b1 : byte) (r : bytes) :
  (0xC2 <= Byte.to_N b0 <= 0xDF)%N ->
  (0x80 <= Byte.to_N b1 <= 0xBF)%N ->
  Utf8.decode (b0 :: b1 :: r)
  = option_map (cons ((Byte.to_N b0 - 0xC0) * 0x40 + (Byte.to_N b1 - 0x80))%N)
               (Utf8.decode r).
Proof.
  intros H0 H1. cbn [Utf8.decode]. cbv zeta. unfold Utf8.cont.
  rewrite (proj2 (N.ltb_ge _ _)) by lia.
  now rewrite !(proj2 (between_spec _ _ _)) by lia.
Qed.

Lemma decode_3 (b0 b1 b2 : byte) (r : bytes) :
  (0xE0 <= Byte.to_N b0 <= 0xEF)%N ->
  (0x80 <= Byte.to_N b1 <= 0xBF)%N ->
  (Byte.to_N b0 = 0xE0 -> 0xA0 <= Byte.to_N b1)%N ->
  (Byte.to_N b0 = 0xED -> Byte.to_N b1 <= 0x9F)%N ->
  (0x80 <= Byte.to_N b2 <= 0xBF)%N ->
  Utf8.decode (b0 :: b1 :: b2 :: r)
  = option_map
      (cons ((Byte.to_N b0 - 0xE0) * 0x1000 + (Byte.to_N b1 - 0x80) * 0x40
             + (Byte.to_N b2 - 0x80))%N)
      (Utf8.decode r).
Proof.
  intros H0 H1 Hlo Hhi H2. cbn [Utf8.decode]. cbv zeta. unfold Utf8.cont.
  rewrite (proj2 (N.ltb_ge _ _)) by lia.
  rewrite (@between_out 0xC2 0xDF) by lia.
  rewrite (proj2 (between_spec 0xE0 0xEF _)) by lia.
  rewrite (proj2 (between_spec 0x80 0xBF (Byte.to_N b2))) by lia.
  destruct (N.eqb_spec (Byte.to_N b0) 0xE0), (N.eqb_spec (Byte.to_N b0) 0xED);
    now rewrite (proj2 (between_spec _ _ _)) by lia.
Qed.

Lemma decode_4 (b0 b1 b2 b3 : byte) (r : bytes) :
  (0xF0 <= Byte.to_N b0 <= 0xF4)%N ->
  (0x80 <= Byte.to_N b1 <= 0xBF)%N ->
  (Byte.to_N b0 = 0xF0 -> 0x90 <= Byte.to_N b1)%N ->
  (Byte.to_N b0 = 0xF4 -> Byte.to_N b1 <= 0x8F)%N ->
  (0x80 <= Byte.to_N b2 <= 0xBF)%N ->
  (0x80 <= Byte.to_N b3 <= 0xBF)%N ->
  Utf8.decode (b0 :: b1 :: b2 :: b3 :: r)
  = option_map
      (cons ((Byte.to_N b0 - 0xF0) * 0x40000 + (Byte.to_N b1 - 0x80) * 0x1000
             + (Byte.to_N b2 - 0x80) * 0x40 + (Byte.to_N b3 - 0x80))%N)
      (Utf8.decode r).
Proof.
  intros H0 H1 Hlo Hhi H2 H3. cbn [Utf8.decode]. cbv zeta. unfold Utf8.cont.
  rewrite (proj2 (N.ltb_ge _ _)) by lia.
  rewrite (@between_out 0xC2 0xDF) by lia.
  rewrite (@between_out 0xE0 0xEF) by lia.
  rewrite (proj2 (between_spec 0xF0 0xF4 _)) by lia.
  rewrite (proj2 (between_spec 0x80 0xBF (Byte.to_N b2))) by lia.
  rewrite (proj2 (between_spec 0x80 0xBF (Byte.to_N b3))) by lia.
  destruct (N.eqb_spec (Byte.to_N b0) 0xF0), (N.eqb_spec (Byte.to_N b0) 0xF4);
    now rewrite (proj2 (between_spec _ _ _)) by lia.
Qed.

(** The quotient and remainder of [a] by [b], as fresh variables. *)
Ltac euclid a b :=
  let Hd := fresh "Hdiv" in
  let Hm := fresh "Hmod" in
  pose proof (N.div_mod a b ltac:(discriminate)) as Hd;
  pose proof (N.mod_lt a b ltac:(discriminate)) as Hm;
  generalize dependent (a mod b)%N; generalize dependent (a / b)%N; intros.

(** Quotients and remainders become opaque variables. *)
Ltac forget_divmod :=
  repeat match goal with
    | H : context [(?a mod ?b)%N] |- _ =>
        generalize dependent (a mod b)%N; intros
    | |- context [(?a mod ?b)%N] =>
        generalize dependent (a mod b)%N; intros
    | H : context [(?a / ?b)%N] |- _ =>
        generalize dependent (a / b)%N; intros
    | |- context [(?a / ?b)%N] =>
        generalize dependent (a / b)%N; intros
    end.

Lemma some_eq {A} (x y : A) : Some x = Some y -> x = y.
Proof. congruence. Qed.

Lemma decode_encode_char (c : N) (b r : bytes) :
  Utf8.encode_char c = Some b ->
  Utf8.decode (b ++ r) = option_map (cons c) (Utf8.decode r).
Proof.
  unfold Utf8.encode_char. intros H.
  destruct (N.ltb_spec c 0x80).
  { apply some_eq in H. subst b. cbv [app].
    rewrite decode_1; rewrite to_N_byte_of by lia; [reflexivity | lia]. }
  destruct (N.ltb_spec c 0x800).
  { apply some_eq in H. subst b. cbv [app].
    assert (Hq : (2 <= c / 0x40 <= 31 /\ c mod 0x40 < 0x40
                  /\ c / 0x40 * 0x40 + c mod 0x40 = c)%N).
    { euclid c 0x40%N. lia. }
    forget_divmod.
    rewrite decode_2; rewrite !to_N_byte_of by lia; try lia.
    f_equal. f_equal. lia. }
  destruct (N.ltb_spec c 0x10000).
  { destruct (between 0xD800 0xDFFF c) eqn:Hs; [discriminate|].
    apply some_eq in H. subst b. cbv [app].
    assert (Hs' : (c < 0xD800 \/ 0xDFFF < c)%N).
    { destruct (N.lt_ge_cases c 0xD800); [now left|].
      destruct (N.lt_ge_cases 0xDFFF c); [now right|].
      rewrite (proj2 (between_spec _ _ _)) in Hs by lia. discriminate. }
    assert (Hq : (c / 0x1000 <= 15 /\ (c / 0x40) mod 0x40 < 0x40
                  /\ c mod 0x40 < 0x40
                  /\ (c / 0x1000 = 0 -> 0x20 <= (c / 0x40) mod 0x40)
                  /\ (c / 0x1000 = 13 -> (c / 0x40) mod 0x40 <= 0x1F)
                  /\ c / 0x1000 * 0x1000 + (c / 0x40) mod 0x40 * 0x40
                     + c mod 0x40 = c)%N).
    { change 0x1000%N with (0x40 * 0x40)%N. rewrite <- N.Div0.div_div.
      euclid (c / 0x40)%N 0x40%N. euclid c 0x40%N. lia. }
    clear Hs. forget_divmod.
    rewrite decode_3; rewrite !to_N_byte_of by lia; try lia.
    f_equal. f_equal. lia. }
  destruct (N.leb_spec c 0x10FFFF); [|discriminate].
  apply some_eq in H. subst b. cbv [app].
  assert (Hq : (c / 0x40000 <= 4 /\ (c / 0x1000) mod 0x40 < 0x40
                /\ (c / 0x40) mod 0x40 < 0x40 /\ c mod 0x40 < 0x40
                /\ (c / 0x40000 = 0 -> 0x10 <= (c / 0x1000) mod 0x40)
                /\ (c / 0x40000 = 4 -> (c / 0x1000) mod 0x40 <= 0x0F)
                /\ c / 0x40000 * 0x40000 + (c / 0x1000) mod 0x40 * 0x1000
                   + (c / 0x40) mod 0x40 * 0x40 + c mod 0x40 = c)%N).
  { change 0x40000%N with (0x40 * 0x40 * 0x40)%N.
    change 0x1000%N with (0x40 * 0x40)%N.
    rewrite <- !N.Div0.div_div.
    euclid (c / 0x40 / 0x40)%N 0x40%N. euclid (c / 0x40)%N 0x40%N.
    euclid c 0x40%N. lia. }
  forget_divmod.
  rewrite decode_4; rewrite !to_N_byte_of by lia; try lia.
  f_equal. f_equal. lia.
Qed.

Lemma decode_encode (s : str) (bs : bytes) :
  Utf8.encode s = Some bs -> Utf8.decode bs = Some s.
Proof.
  revert bs. induction s as [|c s IH]; intros bs H; simpl in H.
  - now injection H as <-.
  - destruct (Utf8.encode_char c) as [b|] eqn:Hc; [|discriminate].
    destruct (Utf8.encode s) as [bs'|]; [|discriminate].
    injection H as <-.
    now rewrite (@decode_encode_char c b bs' Hc), (IH bs' eq_refl).
Qed.

(* ================================================================= *)
(** ** Responses as [read_response] returns them *)

Lemma lstrip_length (s : str) : (List.length (lstrip s) <= List.length s)%nat.
Proof.
  induction s as [|c s IH]; simpl; [lia|].
  destruct (isspace c); simpl; lia.
Qed.

Lemma lstrip_fixed_head (c : N) (s : str) :
  lstrip (c :: s) = c :: s -> isspace c = false.
Proof.
  simpl. destruct (isspace c); [|reflexivity].
  intros H. pose proof (lstrip_length s) as L. rewrite H in L. simpl in L. lia.
Qed.

Lemma lstrip_strip (s : str) : lstrip (strip s) = strip s.
Proof.
  unfold strip. induction s as [|c s IH]; [reflexivity|].
  simpl. destruct (isspace c) eqn:E; [exact IH|].
  rewrite rstrip_cons by exact E. simpl. now rewrite E.
Qed.

Lemma rstrip_strip (s : str) : rstrip (strip s) = strip s.
Proof. unfold strip. apply rstrip_idem. Qed.

Lemma rstrip_fixed_last (s : str) (c : N) :
  rstrip (s ++ [c]) = s ++ [c] -> isspace c = false.
Proof.
  unfold rstrip. rewrite rev_app_distr. simpl. intros H.
  apply (f_equal (@rev N)) in H.
  rewrite rev_involutive, rev_app_distr in H. simpl in H.
  now apply lstrip_fixed_head in H.
Qed.

Lemma rstrip_snoc_space (s : str) (c : N) :
  isspace c = true -> rstrip (s ++ [c]) = rstrip s.
Proof.
  intros Hc. unfold rstrip. rewrite rev_app_distr. simpl. now rewrite Hc.
Qed.

Lemma strip_snoc_space (s : str) (c : N) :
  isspace c = true -> strip (s ++ [c]) = strip s.
Proof.
  intros Hc. unfold strip.
  assert (H : lstrip (s ++ [c]) = lstrip s ++ [c]
              \/ (lstrip s = [] /\ lstrip (s ++ [c]) = [])).
  { induction s as [|x s IH]; simpl.
    - rewrite Hc. now right.
    - destruct (isspace x); [exact IH | now left]. }
  destruct H as [-> | [-> ->]]; [now apply rstrip_snoc_space | reflexivity].
Qed.

Lemma strip_blank (s : str) : Forall (fun c => isspace c = true) s -> strip s = [].
Proof.
  intros H. unfold strip.
  assert (E : lstrip s = []).
  { induction H as [|c s Hc _ IH]; simpl; [reflexivity | now rewrite Hc]. }
  now rewrite E.
Qed.

Lemma decode_ascii (raw : bytes) :
  Forall (fun b => (Byte.to_N b < 0x80)%N) raw ->
  Utf8.decode raw = Some (map Byte.to_N raw).
Proof.
  induction 1 as [|b raw Hb _ IH]; [reflexivity|].
  now rewrite decode_1, IH.
Qed.

(** X1.  What [send_command] writes reads back as the command: when the
    command encodes, the write succeeds and the line that comes in is the
    very bytes that went out (an echoing device), [send_command] returns the
    command with the whitespace at its ends removed. *)
Theorem send_command_echo (cmd : str) (data : bytes) (ser : Serial) (w : World) :
  Utf8.encode cmd = Some data ->
  write_failure (port ser) (writes ser) (data ++ [CR]) = None ->
  read_until_result (port ser) (reads ser) [CR] 1%Q = Ok (data ++ [CR]) ->
  fst (send_command cmd (ser, w)) = Ok (strip cmd).
Proof.
  intros Henc Hwrite Hread.
  pose proof (encode_command _ Henc) as Henc'.
  unfold send_command. rewrite Henc'.
  unfold bind at 1. unfold ser_write. rewrite Hwrite.
  rewrite read_response_run. unfold read_response_timeout_default.
  cbn [port reads count_write fst].
  rewrite Hread. unfold decoded.
  rewrite (decode_encode _ Henc').
  now rewrite strip_snoc_space.
Qed.

Lemma send_command_echo_witness :
  fst (send_command (lit "VOL,7")
                    (connect (echo_of (blit "VOL,7" ++ [CR])), world0))
  = Ok (lit "VOL,7").
Proof.
  apply (@send_command_echo (lit "VOL,7") (blit "VOL,7")
           (connect (echo_of (blit "VOL,7" ++ [CR]))) world0);
    reflexivity.
Defined.

(** X2.  The text [read_response] returns never begins and never ends
    with a whitespace character; in particular the carriage return that
    ended the line is not part of it. *)
Theorem read_response_is_trimmed (t : Q) (ser : Serial) (w : World) (s : str) :
  fst (read_response t (ser, w)) = Ok s ->
  (forall c rest, s = c :: rest -> isspace c = false)
  /\ (forall c init, s = init ++ [c] -> isspace c = false).
Proof.
  rewrite read_response_run. cbn [fst]. unfold decoded.
  destruct (read_until_result _ _ _ _) as [raw|e]; [|discriminate].
  destruct (Utf8.decode raw) as [text|]; [|discriminate].
  intros H. injection H as <-. split.
  - intros c rest E. apply lstrip_fixed_head with (s := rest).
    rewrite <- E. apply lstrip_strip.
  - intros c init E. apply rstrip_fixed_last with (s := init).
    rewrite <- E. apply rstrip_strip.
Qed.

Lemma read_response_is_trimmed_witness :
  (forall c rest, lit "MDL,BCD436HP" = c :: rest -> isspace c = false)
  /\ (forall c init, lit "MDL,BCD436HP" = init ++ [c] -> isspace c = false).
Proof.
  apply (@read_response_is_trimmed 1%Q (connect uniden_A) world0
           (lit "MDL,BCD436HP")).
  reflexivity.
Defined.

(** X3.  A line of nothing but ASCII whitespace reads as the empty
    response: a bare carriage return, or a line end after blanks, gives the
    caller the same [""] as a timeout with no bytes at all. *)
Theorem read_response_blank_line (t : Q) (ser : Serial) (w : World)
        (raw : bytes) :
  read_until_result (port ser) (reads ser) [CR] t = Ok raw ->
  Forall ascii_blank raw ->
  fst (read_response t (ser, w)) = Ok [].
Proof.
  intros Hread Hblank. rewrite read_response_run. cbn [fst].
  rewrite Hread. unfold decoded.
  rewrite decode_ascii.
  - rewrite strip_blank; [reflexivity|].
    apply Forall_map. revert Hblank. apply Forall_impl. now intros b [_ H].
  - revert Hblank. apply Forall_impl. now intros b [H _].
Qed.

Lemma read_response_blank_line_witness :
  fst (read_response 1%Q (connect (echo_of [x20; x09; CR]), world0)) = Ok [].
Proof.
  apply (@read_response_blank_line 1%Q (connect (echo_of [x20; x09; CR]))
           world0 [x20; x09; CR]).
  - reflexivity.
  - repeat constructor.
Defined.

(* ================================================================= *)
(** ** The model-response pattern, read backwards *)

Lemma span_spec (p : N -> bool) (s run rest : str) :
  Re.span p s = (run, rest) ->
  s = run ++ rest /\ Forall (fun c => p c = true) run.
Proof.
  revert run rest. induction s as [|c s IH]; intros run rest H; simpl in H.
  - injection H as <- <-. auto.
  - destruct (p c) eqn:Hc.
    + destruct (Re.span p s) as [run' rest'].
      injection H as <- <-.
      destruct (IH run' rest' eq_refl) as [-> F]. auto.
    + injection H as <- <-. auto.
Qed.

(** Case analysis on the characters a literal pattern is matched against. *)
Ltac split_literal H :=
  repeat match type of H with
    | context [match ?x with _ => _ end] =>
        is_var x; destruct x; try discriminate H
    end.

Lemma mdl_match_sound (s g : str) :
  Re.mdl_pattern_match s = Some g ->
  g <> [] /\ Forall (fun c => Re.mdl_char c = true) g
  /\ (s = lit "MDL," ++ g \/ s = lit "MDL," ++ g ++ [10%N]).
Proof.
  unfold Re.mdl_pattern_match. intros H. split_literal H.
  destruct (Re.span Re.mdl_char s) as [run rest] eqn:Hspan.
  apply span_spec in Hspan as [-> Hall].
  destruct run as [|c run]; [discriminate|].
  split_literal H; injection H as <-;
    (split; [discriminate | split; [exact Hall|]]).
  - left. now rewrite app_nil_r.
  - now right.
Qed.

(** X4.  On a response as [read_response] returns it, the pattern of
    [find_scanner_port] matches exactly the texts [MDL,<payload>] with a
    non-empty payload of letters, digits and commas, and group 1 is the
    payload: no other response is taken for a Uniden scanner. *)
Theorem mdl_pattern_on_responses (text g : str) :
  Re.mdl_pattern_match (strip text) = Some g
  <-> strip text = lit "MDL," ++ g
      /\ g <> [] /\ Forall (fun c => Re.mdl_char c = true) g.
Proof.
  split.
  - intros H. apply mdl_match_sound in H as (Hne & Hall & [E|E]); [auto|].
    exfalso. rewrite app_assoc in E.
    pose proof (rstrip_strip text) as R. rewrite E in R.
    apply rstrip_fixed_last in R. discriminate R.
  - intros (E & Hne & Hall).
    rewrite mdl_grammar_match by (exists g; auto).
    now rewrite E.
Qed.

Lemma mdl_pattern_on_responses_witness :
  Re.mdl_pattern_match (strip (lit "MDL,BCD436HP" ++ [13%N]))
  = Some (lit "BCD436HP").
Proof.
  apply (proj2 (mdl_pattern_on_responses (lit "MDL,BCD436HP" ++ [13%N])
                                           (lit "BCD436HP"))).
  split; [reflexivity|]. split; [discriminate|]. repeat constructor.
Defined.

(* ================================================================= *)
(** ** What a pass does and what it finds *)

Lemma returns_ret {S A} (R : A -> Prop) (a : A) : R a -> returns R (@ret S A a).
Proof. intros H s a' s' E. injection E as <- _. exact H. Qed.

Lemma returns_bind {S A B} (R : B -> Prop) (c : M S A) (k : A -> M S B) :
  (forall a, returns R (k a)) -> returns R (bind c k).
Proof.
  intros Hk s b s' E. unfold bind in E.
  destruct (c s) as [[a|e] s1]; [|discriminate].
  exact (Hk a s1 b s' E).
Qed.

Lemma emits_read_response_at (P : Event -> Prop) (t : Q) :
  (forall d, P (EvReadUntil d [CR] t)) -> emits cevents P (read_response t).
Proof.
  intros H [ser w]. rewrite read_response_run. unfold cevents. cbn [snd events emit].
  eexists. split; [reflexivity|]. auto.
Qed.

Lemma probe_pass_events baud tmo (p : PortSim) (d : list Detected) :
  emits cevents (pass_event baud tmo) (probe p d).
Proof.
  unfold probe, read_response_timeout_default.
  repeat first
    [ apply emits_ret
    | apply emits_in_world, emits_logger; now left
    | apply emits_write; intros; first [now left | now right]
    | apply emits_read_response_at; intros; now split
    | apply emits_bind; [|intros ?]
    | match goal with
      | |- emits _ _ (match ?x with _ => _ end) => destruct x
      | |- emits _ _ (if ?x then _ else _) => destruct x
      end ].
Qed.

(** The body of the [with] block adds at most one entry, at the end. *)
Lemma probe_returns (p : PortSim) (d : list Detected) :
  returns (fun d' =>
             d' = d
             \/ exists model dialect,
                 d' = d ++ [(device p, model, dialect)]
                 /\ entry_ok (device p, model, dialect))
          (probe p d).
Proof.
  unfold probe.
  do 5 (apply returns_bind; intros ?).
  destruct (Re.mdl_pattern_match _) as [model_code|] eqn:Hm.
  - apply returns_ret. right. exists model_code, (lit "uniden").
    split; [reflexivity|]. left.
    apply mdl_match_sound in Hm as (Hne & Hall & _). auto.
  - do 3 (apply returns_bind; intros ?).
    destruct (str_eqb _ _); apply returns_ret; [|now left].
    right. exists (lit "AR-DV1"), (lit "aordv1").
    split; [reflexivity|]. now right.
Qed.

Lemma check_port_run baud tmo (p : PortSim) (d : list Detected) (w : World) :
  exists d' w' evs,
    check_port baud tmo p d w = (Ok d', w')
    /\ events w' = events w ++ evs
    /\ Forall (pass_event baud tmo) evs
    /\ (d' = d
        \/ exists model dialect,
            d' = d ++ [(device p, model, dialect)]
            /\ entry_ok (device p, model, dialect)).
Proof.
  unfold check_port, try_except, with_Serial.
  destruct (open_failure p baud tmo) as [e|] eqn:Hopen.
  - do 3 eexists. split; [reflexivity|]. split; [|split].
    + simpl. rewrite <- app_assoc. reflexivity.
    + constructor; [now split|]. constructor; [now right|]. constructor.
    + now left.
  - set (s0 := (mkSerial p baud tmo 0 0 0,
                emit (EvOpen (device p) baud tmo None) w)).
    destruct (probe_pass_events baud tmo p d s0) as (body & E & F).
    pose proof (@probe_returns p d s0) as R.
    destruct (probe p d s0) as [[d'|e] [ser' w']]; unfold cevents in E;
      simpl in E.
    + exists d', (emit (EvClose (device p)) w'),
        (EvOpen (device p) baud tmo None :: body ++ [EvClose (device p)]).
      split; [reflexivity|]. split; [|split].
      * simpl. rewrite E. rewrite <- !app_assoc. reflexivity.
      * constructor; [now split|]. apply Forall_app. split; [exact F|].
        repeat constructor.
      * exact (R d' (ser', w') eq_refl).
    + do 3 eexists. split; [reflexivity|]. split; [|split].
      * simpl. rewrite E. rewrite <- !app_assoc. reflexivity.
      * constructor; [now split|]. apply Forall_app. split; [exact F|].
        constructor; [exact I|]. constructor; [now right|]. constructor.
      * now left.
Qed.

Lemma Subseq_nil_l {A} (l : list A) : Subseq [] l.
Proof. induction l; constructor; auto. Qed.

Lemma Subseq_length {A} (a b : list A) :
  Subseq a b -> (List.length a <= List.length b)%nat.
Proof. induction 1; simpl; lia. Qed.

Lemma for_ports_run baud tmo (ports : list PortSim) :
  forall (d : list Detected) (w : World),
  exists new w' evs,
    for_ports baud tmo ports d w = (Ok (d ++ new), w')
    /\ events w' = events w ++ evs
    /\ Forall (pass_event baud tmo) evs
    /\ Forall entry_ok new
    /\ Subseq (map entry_device new) (map device ports).
Proof.
  induction ports as [|p ports IH]; intros d w.
  - exists [], w, []. simpl. rewrite !app_nil_r.
    repeat split; auto. constructor.
  - destruct (check_port_run baud tmo p d w)
      as (d1 & w1 & e1 & R1 & E1 & F1 & Hd1).
    destruct (IH d1 w1) as (new & w2 & e2 & R2 & E2 & F2 & Hok & Hsub).
    simpl. unfold bind. rewrite R1, R2.
    destruct Hd1 as [-> | (model & dialect & -> & Hentry)].
    + exists new, w2, (e1 ++ e2). split; [reflexivity|].
      split; [now rewrite E2, E1, app_assoc|].
      split; [now apply Forall_app|]. split; [exact Hok|].
      now constructor.
    + exists ((device p, model, dialect) :: new), w2, (e1 ++ e2).
      split; [now rewrite <- app_assoc|].
      split; [now rewrite E2, E1, app_assoc|].
      split; [now apply Forall_app|]. split; [now constructor|].
      simpl. now constructor.
Qed.

Lemma pass_event_counts baud tmo (evs : list Event) :
  Forall (pass_event baud tmo) evs ->
  passes evs = 0%nat /\ sleeps evs = 0%nat /\ errors_logged evs = 0%nat.
Proof.
  induction 1 as [|e evs He _ IH]; [auto|].
  destruct e as [| | | | | | | | | |[| |] ? ?]; simpl in *;
    try tauto; destruct He; discriminate.
Qed.

Lemma pass_event_discovery baud tmo (e : Event) :
  pass_event baud tmo e -> discovery_event baud tmo e.
Proof. destruct e; simpl; tauto. Qed.

Lemma sleeps_app (a b : list Event) : sleeps (a ++ b) = (sleeps a + sleeps b)%nat.
Proof.
  induction a as [|e a IH]; [reflexivity|].
  destruct e; simpl; now rewrite IH.
Qed.

Lemma errors_logged_app (a b : list Event) :
  errors_logged (a ++ b) = (errors_logged a + errors_logged b)%nat.
Proof.
  induction a as [|e a IH]; [reflexivity|].
  destruct e as [| | | | | | | | | |[| |] ? ?]; simpl; now rewrite IH.
Qed.

(** Every run of the retry loop, whatever the ports do. *)
Lemma while_retries_run (env : Env) baud tmo (max_retries : Z) (fuel : nat) :
  forall (retries : Z) (w : World),
    (Z.to_nat (max_retries - retries) <= fuel)%nat ->
    exists res w' evs,
      while_retries env fuel baud tmo max_retries retries [] w
      = (Ok (Some res), w')
      /\ events w' = events w ++ evs
      /\ Forall (discovery_event baud tmo) evs
      /\ (passes evs <= Z.to_nat (max_retries - retries))%nat
      /\ match res with
         | [] => passes evs = Z.to_nat (max_retries - retries)
                 /\ sleeps evs = passes evs
                 /\ errors_logged evs = 1%nat
         | _ :: _ => passes evs = S (sleeps evs)
                     /\ errors_logged evs = 0%nat
         end
      /\ Forall entry_ok res
      /\ exists k,
          Subseq (map entry_device res) (map device (comports_result env k)).
Proof.
  induction fuel as [|fuel IH]; intros retries w Hfuel.
  - simpl. destruct (Z.ltb_spec retries max_retries); [lia|].
    exists [], (emit (EvLog ERROR "No scanners found after maximum retries."
                            []) w),
      [EvLog ERROR "No scanners found after maximum retries." []].
    replace (Z.to_nat (max_retries - retries)) with 0%nat by lia.
    split; [reflexivity|]. split; [reflexivity|].
    split; [repeat constructor|]. split; [simpl; lia|].
    split; [simpl; auto|]. split; [constructor|].
    exists 0%nat. apply Subseq_nil_l.
  - simpl. destruct (Z.ltb_spec retries max_retries).
    + unfold bind at 1. unfold comports at 1.
      set (w0 := mkWorld _ _ _ _).
      destruct (for_ports_run baud tmo
                  (comports_result env (enumerations w)) [] w0)
        as (new & w1 & e1 & R1 & E1 & F1 & Hok & Hsub).
      destruct (pass_event_counts F1) as (P1 & S1 & X1).
      unfold bind at 1. rewrite R1. cbn [app].
      destruct new as [|x new]; cbn [truthy].
      * unfold bind at 1. unfold logger at 1.
        unfold bind at 1. unfold time_sleep at 1.
        destruct (IH (retries + 1)%Z
                     (emit (EvSleep 3)
                        (emit (EvLog INFO
                                 "No scanners found. Retrying in 3 seconds..."
                                 []) w1)))
          as (res & w2 & e2 & R2 & E2 & F2 & L2 & A2 & Hok2 & Hsub2); [lia|].
        exists res, w2,
          (EvComports :: e1
           ++ [EvLog INFO "No scanners found. Retrying in 3 seconds..." [];
               EvSleep 3] ++ e2).
        split; [exact R2|]. split; [|split; [|split; [|split; [|split]]]].
        -- rewrite E2. simpl. rewrite E1. subst w0. simpl.
           rewrite <- !app_assoc. reflexivity.
        -- constructor; [exact I|]. apply Forall_app. split.
           ++ revert F1. apply Forall_impl. apply pass_event_discovery.
           ++ constructor; [exact I|]. constructor; [reflexivity | exact F2].
        -- simpl. rewrite passes_app, P1. simpl. lia.
        -- simpl. rewrite passes_app, sleeps_app, errors_logged_app, P1, S1, X1.
           simpl.
           replace (Z.to_nat (max_retries - retries))
             with (S (Z.to_nat (max_retries - (retries + 1)))) by lia.
           destruct res; lia.
        -- exact Hok2.
        -- exact Hsub2.
      * exists (x :: new), w1, (EvComports :: e1).
        split; [reflexivity|]. split; [|split; [|split; [|split; [|split]]]].
        -- rewrite E1. subst w0. simpl. now rewrite <- app_assoc.
        -- constructor; [exact I|].
           revert F1. apply Forall_impl. apply pass_event_discovery.
        -- simpl. rewrite P1. lia.
        -- simpl. rewrite P1, S1, X1. auto.
        -- exact Hok.
        -- exists (enumerations w). exact Hsub.
    + exists [], (emit (EvLog ERROR "No scanners found after maximum retries."
                            []) w),
      [EvLog ERROR "No scanners found after maximum retries." []].
    replace (Z.to_nat (max_retries - retries)) with 0%nat by lia.
    split; [reflexivity|]. split; [reflexivity|].
    split; [repeat constructor|]. split; [simpl; lia|].
    split; [simpl; auto|]. split; [constructor|].
    exists 0%nat. apply Subseq_nil_l.
Qed.

Lemma find_scanner_port_run (env : Env) baud tmo (max_retries : Z) (w : World) :
  exists res w' evs,
    find_scanner_port env baud tmo max_retries w = (Ok (Some res), w')
    /\ events w' = events w ++ evs
    /\ Forall (discovery_event baud tmo) evs
    /\ (passes evs <= Z.to_nat max_retries)%nat
    /\ match res with
       | [] => passes evs = Z.to_nat max_retries
               /\ sleeps evs = passes evs
               /\ errors_logged evs = 1%nat
       | _ :: _ => passes evs = S (sleeps evs)
                   /\ errors_logged evs = 0%nat
       end
    /\ Forall entry_ok res
    /\ exists k,
        Subseq (map entry_device res) (map device (comports_result env k)).
Proof.
  pose proof (@while_retries_run env baud tmo max_retries
                (Z.to_nat max_retries) 0%Z w) as H.
  rewrite Z.sub_0_r in H. apply H. apply Nat.le_refl.
Qed.

(** X5.  Whatever the ports do, every entry [find_scanner_port] returns
    is either [(device, model, "uniden")] with a non-empty model code of
    letters, digits and commas, or [(device, "AR-DV1", "aordv1")]; no other
    dialect is ever reported. *)
Theorem discovery_entries_well_formed
        (env : Env) baud tmo (max_retries : Z) (w : World) :
  exists res w',
    find_scanner_port env baud tmo max_retries w = (Ok (Some res), w')
    /\ Forall entry_ok res.
Proof.
  destruct (find_scanner_port_run env baud tmo max_retries w)
    as (res & w' & evs & R & _ & _ & _ & _ & Hok & _).
  now exists res, w'.
Qed.

(** X6.  A pass over the ports only appends to [detected]: the entries
    it adds come at the end, at most one per port and in the order of the
    ports.  The devices [find_scanner_port] returns are therefore, in
    order, among the devices of one enumeration. *)
Theorem discovery_keeps_port_order (env : Env) baud tmo :
  (forall ports d w,
      exists new w',
        for_ports baud tmo ports d w = (Ok (d ++ new), w')
        /\ Subseq (map entry_device new) (map device ports)
        /\ (List.length new <= List.length ports)%nat)
  /\ (forall max_retries w,
        exists res w' k,
          find_scanner_port env baud tmo max_retries w = (Ok (Some res), w')
          /\ Subseq (map entry_device res)
                    (map device (comports_result env k))).
Proof.
  split.
  - intros ports d w.
    destruct (for_ports_run baud tmo ports d w)
      as (new & w' & evs & R & _ & _ & _ & Hsub).
    exists new, w'. split; [exact R|]. split; [exact Hsub|].
    apply Subseq_length in Hsub. now rewrite !length_map in Hsub.
  - intros max_retries w.
    destruct (find_scanner_port_run env baud tmo max_retries w)
      as (res & w' & evs & R & _ & _ & _ & _ & _ & k & Hsub).
    now exists res, w', k.
Qed.

Lemma discovery_event_reads baud tmo (evs : list Event) :
  Forall (discovery_event baud tmo) evs ->
  Forall (fun t => t = 1%Q) (read_timeouts evs)
  /\ Forall (fun data => data = MDL_probe \/ data = WI_probe) (written evs).
Proof.
  induction 1 as [|e evs He _ [IHr IHw]]; [split; constructor|].
  destruct e; simpl in *; try contradiction; try (split; assumption).
  - split; [exact IHr | now constructor].
  - split; [constructor; tauto | exact IHw].
Qed.

(** X7.  Whatever the ports do, a run of [find_scanner_port] only
    enumerates the ports, opens them with the baud rate and timeout it was
    given, writes, reads lines, closes, logs and sleeps 3 s between passes.
    It never resets a buffer, never looks at [in_waiting] and never reads the
    clock. *)
Theorem discovery_event_alphabet
        (env : Env) baud tmo (max_retries : Z) (w : World) :
  exists res w' evs,
    find_scanner_port env baud tmo max_retries w = (Ok (Some res), w')
    /\ events w' = events w ++ evs
    /\ Forall (discovery_event baud tmo) evs.
Proof.
  destruct (find_scanner_port_run env baud tmo max_retries w)
    as (res & w' & evs & R & E & F & _).
  now exists res, w', evs.
Qed.

(** X8.  The [timeout] argument of [find_scanner_port] reaches the
    opening of the ports only: every line read of a discovery runs with a
    timeout of 1 s, whatever [timeout] is.  And the only bytes a discovery
    ever sends to a port are the two probes, [MDL\r] and [WI\r]. *)
Theorem discovery_reads_with_one_second
        (env : Env) baud tmo (max_retries : Z) (w : World) :
  exists res w' evs,
    find_scanner_port env baud tmo max_retries w = (Ok (Some res), w')
    /\ events w' = events w ++ evs
    /\ Forall (fun t => t = 1%Q) (read_timeouts evs)
    /\ Forall (fun data => data = MDL_probe \/ data = WI_probe) (written evs).
Proof.
  destruct (find_scanner_port_run env baud tmo max_retries w)
    as (res & w' & evs & R & E & F & _).
  exists res, w', evs. split; [exact R|]. split; [exact E|].
  now apply discovery_event_reads with (baud := baud) (tmo := tmo).
Qed.

(** X9.  Whatever the ports do, a discovery enumerates the ports at most
    [max_retries] times.  When it returns entries, it has slept after every
    pass but the last and logged no error; when it returns the empty list,
    it has made all [max_retries] passes, slept after each of them, the last
    included, and logged exactly one error. *)
Theorem discovery_retry_accounting
        (env : Env) baud tmo (max_retries : Z) (w : World) :
  exists res w' evs,
    find_scanner_port env baud tmo max_retries w = (Ok (Some res), w')
    /\ events w' = events w ++ evs
    /\ (passes evs <= Z.to_nat max_retries)%nat
    /\ match res with
       | [] => passes evs = Z.to_nat max_retries
               /\ sleeps evs = passes evs
               /\ errors_logged evs = 1%nat
       | _ :: _ => passes evs = S (sleeps evs)
                   /\ errors_logged evs = 0%nat
       end.
Proof.
  destruct (find_scanner_port_run env baud tmo max_retries w)
    as (res & w' & evs & R & E & _ & L & A & _).
  now exists res, w', evs.
Qed.

(** X10.  With [max_retries <= 0] a discovery does not look at any port:
    it logs the error and returns the empty list at once. *)
Theorem discovery_without_retries
        (env : Env) baud tmo (max_retries : Z) (w : World) :
  (max_retries <= 0)%Z ->
  find_scanner_port env baud tmo max_retries w
  = (Ok (Some []),
     emit (EvLog ERROR "No scanners found after maximum retries." []) w).
Proof.
  intros H. unfold find_scanner_port, find_scanner_port_fuel.
  replace (Z.to_nat max_retries) with 0%nat by lia.
  simpl. now destruct (Z.ltb_spec 0 max_retries); [lia|].
Qed.

Lemma discovery_without_retries_witness :
  find_scanner_port (env_of [uniden_A]) 115200 (1 # 2) 0 world0
  = (Ok (Some []),
     emit (EvLog ERROR "No scanners found after maximum retries." []) world0).
Proof.
  apply (@discovery_without_retries (env_of [uniden_A]) 115200 (1 # 2) 0%Z
           world0).
  discriminate.
Defined.

(* ================================================================= *)
(** ** Waiting for data: what it touches and how long it polls *)

Lemma inspections_app (a b : list Event) :
  inspections (a ++ b) = (inspections a + inspections b)%nat.
Proof.
  induction a as [|e a IH]; [reflexivity|].
  destruct e; simpl; now rewrite IH.
Qed.

(** The loop leaves the connection as it was, up to the count of polls,
    which grows by one for each look at [in_waiting]. *)
Lemma wait_loop_frame (env : Env) (start max_wait : Q) (fuel : nat) :
  forall (ser : Serial) (w : World),
  exists r ser' w' evs,
    wait_loop env fuel start max_wait (ser, w) = (r, (ser', w'))
    /\ events w' = events w ++ evs
    /\ Forall wait_event evs
    /\ port ser' = port ser /\ baudrate ser' = baudrate ser
    /\ timeout ser' = timeout ser
    /\ writes ser' = writes ser /\ reads ser' = reads ser
    /\ polls ser' = (polls ser + inspections evs)%nat.
Proof.
  induction fuel as [|fuel IH]; intros ser w.
  - exists (Ok None), ser, w, []. simpl. rewrite app_nil_r, Nat.add_0_r.
    repeat split; auto.
  - cbn [wait_loop]. unfold bind at 1. unfold in_world at 1, time_time at 1.
    set (w1 := mkWorld _ _ _ _).
    destruct (Qltb _ max_wait).
    + unfold bind at 1. unfold ser_in_waiting at 1.
      destruct (in_waiting_result (port ser) (polls ser)) as [n|e].
      * destruct (n =? 0)%Z.
        -- unfold bind at 1. unfold in_world at 1, time_sleep at 1.
           destruct (IH (count_poll ser)
                        (emit (EvSleep (1 # 100))
                           (emit (EvInWaiting (device (port ser))) w1)))
             as (r & ser' & w' & evs & R & E & F & Hp & Hb & Ht & Hw & Hr & Hn).
           exists r, ser', w',
             ([EvTime; EvInWaiting (device (port ser)); EvSleep (1 # 100)]
              ++ evs).
           split; [exact R|]. split.
           { rewrite E. subst w1. simpl. rewrite <- !app_assoc. reflexivity. }
           split.
           { apply Forall_app. split; [|exact F].
             repeat constructor. }
           simpl in *. repeat split; auto. lia.
        -- exists (Ok (Some true)), (count_poll ser),
             (emit (EvInWaiting (device (port ser))) w1),
             [EvTime; EvInWaiting (device (port ser))].
           split; [reflexivity|]. split.
           { subst w1. simpl. rewrite <- !app_assoc. reflexivity. }
           split; [repeat constructor|].
           simpl. repeat split; auto. lia.
      * exists (Raise e), (count_poll ser),
          (emit (EvInWaiting (device (port ser))) w1),
          [EvTime; EvInWaiting (device (port ser))].
        split; [reflexivity|]. split.
        { subst w1. simpl. rewrite <- !app_assoc. reflexivity. }
        split; [repeat constructor|].
        simpl. repeat split; auto. lia.
    + exists (Ok (Some false)), ser, w1, [EvTime].
      split; [reflexivity|]. split; [reflexivity|].
      split; [repeat constructor|].
      simpl. repeat split; auto.
Qed.

(** X11.  [wait_for_data] only detects: whatever the clock and the port
    do and however the call ends, it reads the clock, looks at
    [in_waiting] and sleeps 10 ms, and nothing else; it neither reads nor
    writes, and the connection keeps its timeout (unlike after
    [read_response]), its port and its baud rate. *)
Theorem wait_for_data_only_polls
        (env : Env) (fuel : nat) (max_wait : Q) (ser : Serial) (w : World) :
  exists r ser' w' evs,
    wait_for_data env fuel max_wait (ser, w) = (r, (ser', w'))
    /\ events w' = events w ++ evs
    /\ Forall wait_event evs
    /\ port ser' = port ser /\ baudrate ser' = baudrate ser
    /\ timeout ser' = timeout ser
    /\ writes ser' = writes ser /\ reads ser' = reads ser
    /\ polls ser' = (polls ser + inspections evs)%nat.
Proof.
  unfold wait_for_data, bind. unfold in_world at 1, time_time at 1.
  set (w1 := mkWorld _ _ _ _). set (start := seconds _).
  destruct (wait_loop_frame env start max_wait fuel ser w1)
    as (r & ser' & w' & evs & R & E & F & H).
  exists r, ser', w', (EvTime :: evs).
  split; [exact R|]. split.
  { rewrite E. subst w1. simpl. now rewrite <- app_assoc. }
  split; [constructor; [exact I | exact F]|].
  exact H.
Qed.

Lemma seconds_add (a b : N) : (seconds (a + b) == seconds a + seconds b)%Q.
Proof. unfold seconds, Qeq, Qplus. simpl. lia. Qed.

Lemma Qltb_lt (x y : Q) : Qltb x y = true <-> (x < y)%Q.
Proof.
  unfold Qltb. rewrite negb_true_iff. split; intros H.
  - apply Qnot_le_lt. intros L. apply Qle_bool_iff in L. congruence.
  - destruct (Qle_bool y x) eqn:E; [|reflexivity].
    apply Qle_bool_iff in E. exfalso. exact (Qlt_not_le _ _ H E).
Qed.

(** Once the clock is [b] nanoseconds past the start and [max_wait] is at
    most [b] nanoseconds, the loop test fails. *)
Lemma Qltb_past (s b c : N) (max_wait : Q) :
  (max_wait <= seconds b)%Q -> (s + b <= c)%N ->
  Qltb (seconds c - seconds s) max_wait = false.
Proof.
  intros Hm Hc. destruct (Qltb _ _) eqn:E; [|reflexivity].
  apply Qltb_lt in E. exfalso.
  apply seconds_le in Hc. rewrite seconds_add in Hc.
  apply (Qlt_not_le _ _ E).
  apply Qle_trans with (y := seconds b); [exact Hm|].
  apply (proj2 (Qle_minus_iff _ _)).
  apply (proj1 (Qle_minus_iff _ _)) in Hc.
  setoid_replace (seconds c - seconds s + - seconds b)%Q
    with (seconds c + - (seconds s + seconds b))%Q by ring.
  exact Hc.
Qed.

(** X12.  When data is already waiting, [max_wait] is positive and less
    than [max_wait] passes between the first two readings of the clock,
    [wait_for_data] returns [True] after a single look at [in_waiting],
    without sleeping. *)
Theorem wait_for_data_sees_waiting_bytes
        (env : Env) (fuel : nat) (max_wait : Q) (ser : Serial) (w : World)
        (n : Z) :
  (seconds (elapsed_ns env (S (clock_reads w))) < max_wait)%Q ->
  in_waiting_result (port ser) (polls ser) = Ok n ->
  n <> 0%Z ->
  exists w',
    wait_for_data env (S fuel) max_wait (ser, w)
    = (Ok (Some true), (count_poll ser, w'))
    /\ events w'
       = events w ++ [EvTime; EvTime; EvInWaiting (device (port ser))].
Proof.
  intros Hlt Hpoll Hn. unfold wait_for_data. cbn [wait_loop].
  unfold bind, in_world, time_time, ser_in_waiting.
  cbn [events enumerations clock_reads clock_ns].
  assert (E : Qltb (seconds (clock_ns w + elapsed_ns env (clock_reads w)
                             + elapsed_ns env (S (clock_reads w)))
                    - seconds (clock_ns w + elapsed_ns env (clock_reads w)))
                   max_wait = true).
  { apply Qltb_lt. rewrite seconds_add.
    setoid_replace (seconds (clock_ns w + elapsed_ns env (clock_reads w))
                    + seconds (elapsed_ns env (S (clock_reads w)))
                    - seconds (clock_ns w + elapsed_ns env (clock_reads w)))%Q
      with (seconds (elapsed_ns env (S (clock_reads w)))) by ring.
    exact Hlt. }
  rewrite E, Hpoll.
  destruct (Z.eqb_spec n 0); [contradiction|].
  eexists. split; [reflexivity|].
  cbn [events emit]. now rewrite <- !app_assoc.
Qed.

Lemma wait_for_data_sees_waiting_bytes_witness :
  exists w',
    wait_for_data (env_of [chatty]) 1 (3 # 10) (connect chatty, world0)
    = (Ok (Some true), (count_poll (connect chatty), w'))
    /\ events w'
       = events world0 ++ [EvTime; EvTime; EvInWaiting (lit "COM5")].
Proof.
  apply (@wait_for_data_sees_waiting_bytes (env_of [chatty]) 0 (3 # 10)
           (connect chatty) world0 12%Z);
    [reflexivity | reflexivity | discriminate].
Defined.

(** The loop ends within its fuel when every reading of the clock is at
    least [d] nanoseconds after the one before. *)
Lemma wait_loop_bounded (env : Env) (max_wait : Q) (s b d : N) :
  (max_wait <= seconds b)%Q ->
  (forall k, (d <= elapsed_ns env k)%N) ->
  forall (fuel : nat) (ser : Serial) (w : World),
    (s + b <= clock_ns w + N.of_nat fuel * d)%N ->
    exists r ser' w' evs,
      wait_loop env (S fuel) (seconds s) max_wait (ser, w) = (r, (ser', w'))
      /\ r <> Ok None
      /\ events w' = events w ++ evs
      /\ (inspections evs <= fuel)%nat.
Proof.
  intros Hm Hd. induction fuel as [|fuel IH]; intros ser w Hc.
  - cbn [wait_loop]. unfold bind at 1. unfold in_world at 1, time_time at 1.
    rewrite (@Qltb_past s b _ max_wait Hm)
      by (specialize (Hd (clock_reads w)); simpl in Hc; lia).
    do 3 eexists. exists [EvTime].
    split; [reflexivity|]. split; [discriminate|]. split; [reflexivity|].
    simpl. lia.
  - remember (S fuel) as f eqn:Hf.
    cbn [wait_loop]. unfold bind at 1. unfold in_world at 1, time_time at 1.
    set (w1 := mkWorld _ _ _ _).
    destruct (Qltb _ max_wait).
    + unfold bind at 1. unfold ser_in_waiting at 1.
      destruct (in_waiting_result (port ser) (polls ser)) as [n|e].
      * destruct (n =? 0)%Z.
        -- unfold bind at 1. unfold in_world at 1, time_sleep at 1.
           subst f.
           destruct (IH (count_poll ser)
                        (emit (EvSleep (1 # 100))
                           (emit (EvInWaiting (device (port ser))) w1)))
             as (r & ser' & w' & evs & R & Hr & E & Hi).
           { subst w1. cbn [clock_ns emit].
             specialize (Hd (clock_reads w)).
             rewrite Nat2N.inj_succ, N.mul_succ_l in Hc. lia. }
           exists r, ser', w',
             ([EvTime; EvInWaiting (device (port ser)); EvSleep (1 # 100)]
              ++ evs).
           split; [exact R|]. split; [exact Hr|]. split.
           { rewrite E. subst w1. simpl. rewrite <- !app_assoc. reflexivity. }
           simpl. lia.
        -- do 3 eexists. exists [EvTime; EvInWaiting (device (port ser))].
           split; [reflexivity|]. split; [discriminate|]. split.
           { subst w1. simpl. rewrite <- !app_assoc. reflexivity. }
           simpl. lia.
      * do 3 eexists. exists [EvTime; EvInWaiting (device (port ser))].
        split; [reflexivity|]. split; [discriminate|]. split.
        { subst w1. simpl. rewrite <- !app_assoc. reflexivity. }
        simpl. lia.
    + do 3 eexists. exists [EvTime].
      split; [reflexivity|]. split; [discriminate|]. split; [reflexivity|].
      simpl. lia.
Qed.

(** X13.  [wait_for_data] ends, and polls a bounded number of times: when
    every reading of the clock comes at least [d] nanoseconds after the one
    before (the 10 ms sleep sees to that) and [max_wait] is at most
    [n * d] nanoseconds, a run with fuel [n + 1] returns [True] or [False],
    or raises what [in_waiting] raised, after looking at [in_waiting] at
    most [n] times. *)
Theorem wait_for_data_terminates
        (env : Env) (max_wait : Q) (d : N) (n : nat) (ser : Serial)
        (w : World) :
  (max_wait <= seconds (N.of_nat n * d))%Q ->
  (forall k, (d <= elapsed_ns env k)%N) ->
  exists r ser' w' evs,
    wait_for_data env (S n) max_wait (ser, w) = (r, (ser', w'))
    /\ r <> Ok None
    /\ events w' = events w ++ evs
    /\ (inspections evs <= n)%nat.
Proof.
  intros Hm Hd. unfold wait_for_data, bind.
  unfold in_world at 1, time_time at 1.
  set (w1 := mkWorld _ _ _ _).
  destruct (@wait_loop_bounded env max_wait
              (clock_ns w + elapsed_ns env (clock_reads w))%N
              (N.of_nat n * d)%N d Hm Hd n ser w1)
    as (r & ser' & w' & evs & R & Hr & E & Hi).
  { subst w1. cbn [clock_ns]. lia. }
  exists r, ser', w', (EvTime :: evs).
  split; [exact R|]. split; [exact Hr|]. split.
  { rewrite E. subst w1. simpl. now rewrite <- app_assoc. }
  simpl. exact Hi.
Qed.

(** A bound of 3 ms on a clock that advances 1 ms per reading: at most
    three polls. *)
Lemma wait_for_data_terminates_witness :
  exists r ser' w' evs,
    wait_for_data (env_of [silent "COM1"]) 4 (3 # 1000)
                  (connect (silent "COM1"), world0)
    = (r, (ser', w'))
    /\ r <> Ok None
    /\ events w' = events world0 ++ evs
    /\ (inspections evs <= 3)%nat.
Proof.
  apply (@wait_for_data_terminates (env_of [silent "COM1"]) (3 # 1000)
           1000000%N 3%nat (connect (silent "COM1")) world0).
  - discriminate.
  - intros k. simpl. lia.
Defined.

(* ================================================================= *)
(** ** What [send_command] does to the port *)

(** X14.  [send_command] does one write and at most one read, and nothing
    else: when the command does not encode it raises before any I/O; when
    the write raises there is no read; otherwise the write is followed by
    one line read.  It never resets a buffer. *)
Theorem send_command_io (cmd : str) (ser : Serial) (w : World) :
  exists r ser' w' evs,
    send_command cmd (ser, w) = (r, (ser', w'))
    /\ events w' = events w ++ evs
    /\ ((Utf8.encode cmd = None /\ r = Raise encode_error /\ evs = []
         /\ ser' = ser)
        \/ exists data,
            Utf8.encode cmd = Some data
            /\ ((exists e,
                    r = Raise e
                    /\ evs = [EvWrite (device (port ser)) (data ++ [CR])]
                    /\ timeout ser' = timeout ser)
                \/ evs = [EvWrite (device (port ser)) (data ++ [CR]);
                          EvReadUntil (device (port ser)) [CR] 1%Q])).
Proof.
  unfold send_command. rewrite encode_app.
  destruct (Utf8.encode cmd) as [data|] eqn:Henc.
  - change (Utf8.encode [13%N]) with (Some [CR]).
    unfold bind at 1. unfold ser_write.
    destruct (write_failure (port ser) (writes ser) (data ++ [CR])) as [e|].
    + do 4 eexists. split; [reflexivity|]. split; [reflexivity|].
      right. exists data. split; [reflexivity|]. left. exists e. auto.
    + rewrite read_response_run. unfold read_response_timeout_default.
      do 4 eexists. split; [reflexivity|]. split.
      * cbn [events emit port count_write]. rewrite <- app_assoc. reflexivity.
      * right. exists data. split; [reflexivity|]. now right.
  - exists (Raise encode_error), ser, w, [].
    split; [reflexivity|]. split; [now rewrite app_nil_r|]. left. auto.
Qed.

(* ================================================================= *)
(** ** Completion: what the candidates are *)

Lemma index_In {A} (l : list A) (i : Z) (x : A) : index l i = Some x -> In x l.
Proof.
  unfold index. intros H.
  destruct (0 <=? i)%Z; [now apply nth_error_In in H|].
  destruct (_ <=? i)%Z; [now apply nth_error_In in H | discriminate].
Qed.

Lemma filter_Forall {A} (f : A -> bool) (l : list A) :
  Forall (fun x => f x = true) (filter f l).
Proof. apply Forall_forall. intros x H. now apply filter_In in H. Qed.

Lemma completer_matches_start (lower : str -> str) (COMMANDS : Commands)
      (line_buffer text : str) :
  Forall (fun m => startswith m text = true)
         (completer_matches lower COMMANDS line_buffer text).
Proof.
  unfold completer_matches.
  destruct (_ || _); [apply filter_Forall|].
  destruct (1 <=? _)%nat; [|constructor].
  destruct (lookup _ _); [apply filter_Forall | constructor].
Qed.

(** X15.  Whatever the line buffer holds, every candidate [completer]
    returns starts with the text being completed. *)
Theorem completer_candidates_extend_text
        (lower : str -> str) (COMMANDS : Commands)
        (line_buffer text : str) (state : Z) (m : str) :
  completer lower COMMANDS line_buffer text state = Some m ->
  startswith m text = true.
Proof.
  unfold completer. intros H. apply index_In in H.
  pose proof (completer_matches_start lower COMMANDS line_buffer text) as F.
  rewrite Forall_forall in F. now apply F.
Qed.

Lemma completer_candidates_extend_text_witness :
  startswith (lit "down") (lit "d") = true.
Proof.
  apply (@completer_candidates_extend_text ascii_lower registry
           (lit "vol d") (lit "d") 0%Z (lit "down")).
  reflexivity.
Defined.

(** X16.  On a line buffer that is empty or holds only whitespace, the
    candidates are the command names that start with the text, in the
    order of the registry. *)
Theorem completer_blank_buffer
        (lower : str -> str) (COMMANDS : Commands) (line_buffer text : str) :
  Forall (fun c => isspace c = true) line_buffer ->
  completer_matches lower COMMANDS line_buffer text
  = filter (fun cmd => startswith cmd text) (keys COMMANDS).
Proof.
  intros H. unfold completer_matches. now rewrite (strip_blank H).
Qed.

Lemma completer_blank_buffer_witness :
  completer_matches ascii_lower registry (lit "   ") (lit "f") = [lit "freq"].
Proof.
  apply (@completer_blank_buffer ascii_lower registry (lit "   ") (lit "f")).
  repeat constructor.
Defined.

Lemma split_from_sep (a rest : str) (c : N) :
  Forall nonspace a -> isspace c = true ->
  forall cur,
    split_from cur (a ++ c :: rest)
    = match rev cur ++ a with
      | [] => split_from [] rest
      | x :: l => (x :: l) :: split_from [] rest
      end.
Proof.
  intros Ha Hc. induction Ha as [|y a Hy _ IH]; intros cur.
  - simpl. rewrite Hc, app_nil_r. destruct cur as [|x cur]; [reflexivity|].
    simpl. destruct (rev cur); reflexivity.
  - simpl. rewrite Hy, IH. simpl. rewrite <- app_assoc. reflexivity.
Qed.

Lemma strip_words (a z : N) (mid : str) :
  isspace a = false -> isspace z = false ->
  strip (a :: mid ++ [z]) = a :: mid ++ [z].
Proof.
  intros Ha Hz. unfold strip. simpl. rewrite Ha.
  unfold rstrip. change (a :: mid ++ [z]) with ((a :: mid) ++ [z]).
  rewrite rev_app_distr. simpl rev at 2. cbn [app lstrip]. rewrite Hz.
  change (z :: rev (a :: mid)) with ([z] ++ rev (a :: mid)).
  now rewrite rev_app_distr, rev_involutive.
Qed.

(** A buffer of two words with one blank between them is its own strip and
    splits into the two words. *)
Lemma two_words (w1 w2 : str) :
  w1 <> [] -> Forall nonspace w1 ->
  w2 <> [] -> Forall nonspace w2 ->
  strip (w1 ++ lit " " ++ w2) = w1 ++ lit " " ++ w2
  /\ split (w1 ++ lit " " ++ w2) = [w1; w2].
Proof.
  intros Hn1 H1 Hn2 H2. split.
  - destruct w1 as [|a w1]; [congruence|].
    destruct (exists_last Hn2) as (init & z & ->).
    inversion H1; subst. apply Forall_app in H2 as [_ Hz].
    inversion Hz; subst.
    change ((a :: w1) ++ lit " " ++ init ++ [z])
      with (a :: w1 ++ lit " " ++ init ++ [z]).
    replace (w1 ++ lit " " ++ init ++ [z])
      with ((w1 ++ lit " " ++ init) ++ [z])
      by now rewrite <- !app_assoc.
    now apply strip_words.
  - unfold split. change (lit " " ++ w2) with (32%N :: w2).
    rewrite (@split_from_sep w1 w2 32%N H1 eq_refl []), (split_from_word H2).
    destruct w1 as [|a w1]; [congruence|].
    destruct w2 as [|b w2]; [congruence|].
    reflexivity.
Qed.

(** X17.  On a line buffer of two words separated by one blank,
    [completer] looks the first word up in the registry after lowering it:
    when it is a command with a non-empty docstring, the candidates are the
    whitespace-separated tokens of the docstring that start with the text, in
    their order; when the command has no docstring, or the word is no
    command, there are none. *)
Theorem completer_second_word
        (lower : str -> str) (COMMANDS : Commands) (w1 w2 text : str) :
  w1 <> [] -> Forall nonspace w1 ->
  w2 <> [] -> Forall nonspace w2 ->
  completer_matches lower COMMANDS (w1 ++ lit " " ++ w2) text
  = match lookup COMMANDS (lower w1) with
    | Some h =>
        filter (fun sub => startswith sub text)
               match doc h with
               | Some ((_ :: _) as d) => split d
               | _ => []
               end
    | None => []
    end.
Proof.
  intros Hn1 H1 Hn2 H2. unfold completer_matches.
  destruct (two_words Hn1 H1 Hn2 H2) as (-> & ->).
  reflexivity.
Qed.

Lemma completer_second_word_witness :
  completer_matches ascii_lower registry (lit "VOL" ++ lit " " ++ lit "u")
                    (lit "u")
  = [lit "up"].
Proof.
  apply (@completer_second_word ascii_lower registry (lit "VOL") (lit "u")
           (lit "u"));
    try discriminate; repeat constructor.
Defined.

Lemma lookup_In (c : Commands) (k : str) (h : Handler) :
  lookup c k = Some h -> In k (keys c).
Proof.
  induction c as [|[k' h'] c IH]; simpl; [discriminate|].
  destruct (str_eqb k' k) eqn:E.
  - apply str_eqb_eq in E. now left.
  - intros H. right. now apply IH.
Qed.

(** X18.  The registry is looked up by exact key, and the typed command
    is lowered first: when no key of the registry is its own lower-case
    form, no spelling of a command completes at the second level; the
    candidates after the first word are then always empty. *)
Theorem completer_needs_lower_case_keys
        (lower : str -> str) (COMMANDS : Commands) (w1 w2 text : str) :
  lower (lower w1) = lower w1 ->
  (forall k, In k (keys COMMANDS) -> lower k <> k) ->
  w1 <> [] -> Forall nonspace w1 ->
  w2 <> [] -> Forall nonspace w2 ->
  completer_matches lower COMMANDS (w1 ++ lit " " ++ w2) text = [].
Proof.
  intros Hidem Hkeys Hn1 H1 Hn2 H2. unfold completer_matches.
  destruct (two_words Hn1 H1 Hn2 H2) as (-> & ->).
  cbn [List.length Nat.eqb Nat.leb orb andb hd].
  destruct (lookup COMMANDS (lower w1)) as [h|] eqn:E; [|reflexivity].
  apply lookup_In in E. apply Hkeys in E. contradiction.
Qed.

Lemma completer_needs_lower_case_keys_witness :
  completer_matches ascii_lower shouting_registry
                    (lit "VOL" ++ lit " " ++ lit "u") (lit "u")
  = [].
Proof.
  apply (@completer_needs_lower_case_keys ascii_lower shouting_registry
           (lit "VOL") (lit "u") (lit "u"));
    try discriminate; try reflexivity; try (repeat constructor).
  intros k [<-|[]]. discriminate.
Defined.

Lemma nth_error_last {A} (l : list A) (x d : A) :
  nth_error (l ++ [x]) (List.length l) = Some x.
Proof. induction l; simpl; auto. Qed.

(** X19.  The states of one completion count through the candidates:
    state [i] below their number gives the [i]-th candidate, every state from
    their number on gives [None]; and a negative state does not give [None]
    but counts from the end, so that state [-1] gives the last candidate. *)
Theorem completer_state_protocol
        (lower : str -> str) (COMMANDS : Commands) (line_buffer text : str) :
  (forall i : nat,
      completer lower COMMANDS line_buffer text (Z.of_nat i)
      = nth_error (completer_matches lower COMMANDS line_buffer text) i)
  /\ (forall state : Z,
        (Z.of_nat (List.length
                     (completer_matches lower COMMANDS line_buffer text))
         <= state)%Z ->
        completer lower COMMANDS line_buffer text state = None)
  /\ (forall init last,
        completer_matches lower COMMANDS line_buffer text = init ++ [last] ->
        completer lower COMMANDS line_buffer text (-1) = Some last).
Proof.
  unfold completer, index. split; [|split].
  - intros i. destruct (Z.leb_spec 0 (Z.of_nat i)); [|lia].
    now rewrite Nat2Z.id.
  - intros state H. destruct (Z.leb_spec 0 state); [|lia].
    apply nth_error_None. lia.
  - intros init last ->. cbn [Z.leb Z.compare].
    rewrite length_app. cbn [List.length].
    destruct (Z.leb_spec (- Z.of_nat (List.length init + 1)) (-1)); [|lia].
    replace (Z.to_nat (Z.of_nat (List.length init + 1) + -1))
      with (List.length init) by lia.
    now apply nth_error_last.
Qed.

Lemma completer_state_protocol_witness :
  completer ascii_lower registry (lit "") (lit "") (-1) = Some (lit "freq").
Proof.
  apply (proj2 (proj2 (completer_state_protocol ascii_lower registry
                         (lit "") (lit "")))
               [lit "vol"] (lit "freq")).
  reflexivity.
Defined.
